(** * tawf: a declarative route compiler and dispatcher

    A shallow embedding of [tawdry.py] (the [Tawdry] application) and of the
    parts of [web.py] (the earlier [Router] variant) that differ from it,
    followed by the properties of the sitemap compiler and of the request
    dispatcher.

    Conventions of the embedding:
    - a Python [dict] is an association list in insertion order ([dict]);
      the dictionaries built by the code have unique keys;
    - an exception is a value of [exn]; a computation that may raise returns
      a [result];
    - a generator is the list of the values it yields together with the
      exception that ends it, if any;
    - text is [string]; the word characters of the [re] module are taken on
      ASCII text (letters, digits, underscore). *)

From Stdlib Require Import String Ascii List Bool ZArith Lia Arith.
Import ListNotations.
Open Scope string_scope.
Open Scope list_scope.

Set Implicit Arguments.

(** ** Exceptions and results *)

Inductive exn : Type :=
| HTTPException (status : nat)      (* webob.exc.HTTPException, by status code *)
| KeyError (key : string)
| TypeError (msg : string)
| ValueError (msg : string)
| UnboundLocalError (var : string)
| AttributeError (msg : string)
| StopIteration
| re_error (msg : string).

Inductive result (A : Type) : Type :=
| Ok (a : A)
| Raise (e : exn).

Arguments Ok {A} a.
Arguments Raise {A} e.

Definition bind {A B : Type} (r : result A) (k : A -> result B) : result B :=
  match r with
  | Ok a => k a
  | Raise e => Raise e
  end.

Notation "x <- r ;; k" := (bind r (fun x => k))
  (at level 61, r at next level, right associativity).

Definition is_http (e : exn) : bool :=
  match e with
  | HTTPException _ => true
  | _ => false
  end.

(** ** Dictionaries *)

Definition dict (V : Type) : Type := list (string * V).

Fixpoint dict_get {V : Type} (d : dict V) (k : string) : option V :=
  match d with
  | [] => None
  | (k', v) :: d' => if String.eqb k' k then Some v else dict_get d' k
  end.

(** [d[k] = v]: an existing key keeps its position, a new key goes last. *)
Fixpoint dict_set {V : Type} (d : dict V) (k : string) (v : V) : dict V :=
  match d with
  | [] => [(k, v)]
  | (k', v') :: d' =>
      if String.eqb k' k then (k', v) :: d' else (k', v') :: dict_set d' k v
  end.

Definition keys {V : Type} (d : dict V) : list string := map fst d.

Definition mem (k : string) (l : list string) : bool :=
  existsb (String.eqb k) l.

(** ** Values, requests, handlers *)

#[warnings="-register-all"]
Inductive value : Type :=
| VStr (s : string)
| VInt (z : Z)
| VNone
| VDict (items : list (string * value))
| VExc (status : nat).               (* an HTTPException instance, as a value *)

(** The part of the WSGI environment the dispatcher reads and writes:
    [request.path_info] and [request.urlvars] (webob keeps both in [env]). *)
Record request : Type := {
  path_info : string;
  urlvars : dict string
}.

Definition set_urlvars (env : request) (vars : dict string) : request :=
  {| path_info := path_info env; urlvars := vars |}.

(** What serving one request produces at the WSGI boundary.  The two
    variants build different responses from a returned value: [Response] of
    tawdry.py adds a [Content-type: text/html] header to the
    [webob.Response] it makes, [replacement] of web.py sends the
    [webob.Response] as it is. *)
Inductive wsgi_outcome : Type :=
| HTTPErrorResponse (status : nat)   (* an HTTPException called as a WSGI app *)
| TextResponse (body : value)        (* tawdry.py: webob.Response(body=str(body))
                                        with the Content-type header added *)
| BareResponse (body : value)        (* web.py: webob.Response(body=str(body)) *)
| Uncaught (e : exn).                (* the exception leaves the application *)

(** [param.annotation] of one parameter of a signature. *)
Inductive annotation : Type :=
| Signature_empty
| Annotated (conv : value -> result value).

(** A callable of the sitemap.  [h_params] is
    [inspect.signature(callable).parameters] in order, the request parameter
    first; the parameters are plain ones (no default, no [*args], no
    [**kwargs]), as in the handlers of the repository.  [h_return] is the
    return annotation if there is one: [make_route_response] calls it on the
    result and serves what it returns. *)
Record handler : Type := {
  h_params : dict annotation;
  h_return : option (value -> wsgi_outcome);
  h_body : request -> dict value -> result value
}.

(** [callable(request, **kwargs)]: Python binds the positional argument to
    the first parameter and every keyword to one of the others; an unknown
    keyword or a missing argument is a [TypeError]. *)
Definition call (h : handler) (req : request) (kwargs : dict value)
  : result value :=
  match h_params h with
  | [] => Raise (TypeError "takes 0 positional arguments but 1 was given")
  | _ :: named =>
      if forallb (fun k => mem k (keys named)) (keys kwargs) then
        if forallb (fun n => mem n (keys kwargs)) (keys named) then
          h_body h req kwargs
        else Raise (TypeError "missing required positional argument")
      else Raise (TypeError "got an unexpected keyword argument")
  end.

(** ** The sitemap *)

(** A node of the declaration: a mapping, a callable, or anything else
    ([truthy] is the truth value of that other object). *)
#[warnings="-register-all"]
Inductive node : Type :=
| Branch (items : list (string * node))
| Leaf (h : handler)
| Other (truthy : bool).

Definition nonempty (s : string) : bool :=
  match s with
  | EmptyString => false
  | String _ _ => true
  end.

(** ** [generate_sitemap] of tawdry.py *)

(** A generator run: the routes yielded, then the exception raised. *)
Definition generated : Type := list (list string * handler) * option exn.

Definition gen_then (g1 g2 : generated) : generated :=
  match snd g1 with
  | Some e => g1
  | None => (fst g1 ++ fst g2, snd g2)
  end.

Definition gen_yield (r : list string * handler) (g : generated) : generated :=
  (r :: fst g, snd g).

(** The body of [generate_sitemap] once [prefix] is a list.  The inner loop
    carries [prefix], which the callable case rebinds. *)
Fixpoint generate_from (sitemap : node) (prefix : list string) {struct sitemap}
  : generated :=
  match sitemap with
  | Branch items =>
      (fix loop (items : list (string * node)) (prefix : list string)
         {struct items} : generated :=
         match items with
         | [] => ([], None)
         | (segment, sub_segment) :: rest =>
             match sub_segment with
             | Branch _ =>
                 gen_then (generate_from sub_segment (prefix ++ [segment]))
                          (loop rest prefix)
             | Leaf h =>
                 let prefix :=
                   if nonempty segment then prefix ++ [segment] else prefix in
                 gen_yield (prefix, h) (loop rest prefix)
             | Other _ =>
                 ([], Some (ValueError "Invalid datatype for sitemap"))
             end
         end) items prefix
  | Leaf _ => ([], Some (AttributeError "'function' object has no attribute 'items'"))
  | Other _ => ([], Some (AttributeError "object has no attribute 'items'"))
  end.

Definition generate_sitemap (sitemap : node) (prefix : option (list string))
  : generated :=
  generate_from sitemap (match prefix with None => [] | Some p => p end).

(** The loop of [generate_sitemap] over the items of one mapping. *)
Definition generate_items (items : list (string * node)) (prefix : list string)
  : generated :=
  generate_from (Branch items) prefix.

(** ** [compile_route_regex] *)

(** [\w] on the characters of ASCII.  Python's [\w] also accepts the letters
    and digits outside ASCII, which this class leaves out: it is the class
    of the pattern on ASCII text ([ascii_text]) only. *)
Definition is_word (c : ascii) : bool :=
  let n := nat_of_ascii c in
  (((48 <=? n) && (n <=? 57)) || ((65 <=? n) && (n <=? 90))
   || ((97 <=? n) && (n <=? 122)) || (n =? 95))%nat.

Definition is_digit (c : ascii) : bool :=
  let n := nat_of_ascii c in ((48 <=? n) && (n <=? 57))%nat.

(** The longest run of word characters at the head of [s], and what follows. *)
Fixpoint span_word (s : string) : string * string :=
  match s with
  | EmptyString => (EmptyString, EmptyString)
  | String c s' =>
      if is_word c then
        let (w, r) := span_word s' in (String c w, r)
      else (EmptyString, s)
  end.

(** [\{(\w+)\}] tried right after an opening brace: the name and the text
    after the closing brace. *)
Definition match_braces (s : string) : option (string * string) :=
  let (w, r) := span_word s in
  match w, r with
  | String _ _, String c r' =>
      if Ascii.eqb c "}" then Some (w, r') else None
  | _, _ => None
  end.

(** The leftmost match of [\{(\w+)\}] in [s]: the text before it, the name,
    the text after it. *)
Fixpoint search (s : string) : option (string * string * string) :=
  match s with
  | EmptyString => None
  | String c s' =>
      match (if Ascii.eqb c "{" then match_braces s' else None) with
      | Some (name, after) => Some (EmptyString, name, after)
      | None =>
          match search s' with
          | Some (before, name, after) => Some (String c before, name, after)
          | None => None
          end
      end
  end.

(** The pieces appended to the list [regex]; [Escaped s] is [re.escape(s)],
    which matches the text [s] and nothing else. *)
Inductive regex_part : Type :=
| Caret
| Escaped (s : string)
| NamedGroup (name : string)      (* (?P<name>\w+) *)
| Dollar.

(** The loop over [re.finditer(segment_regex, template)] from
    [last_position] on, and the piece appended after it.  Every match
    consumes at least three characters, so [fuel] equal to the length of the
    text is never exhausted (see [finditer_unfold]). *)
Fixpoint finditer_from (fuel : nat) (s : string) : list regex_part :=
  match fuel with
  | O => [Escaped s]
  | S fuel' =>
      match search s with
      | None => [Escaped s]
      | Some (before, name, after) =>
          Escaped before :: NamedGroup name :: finditer_from fuel' after
      end
  end.

(** [compile_route_regex]: the list [regex] before [''.join]. *)
Definition compile_route_regex (template : list string) : list regex_part :=
  let template := String.concat "/" template in
  Caret :: finditer_from (String.length template) template ++ [Dollar].

(** ** [re.match] on the compiled patterns *)

Fixpoint strip_prefix (p s : string) : option string :=
  match p with
  | EmptyString => Some s
  | String c p' =>
      match s with
      | EmptyString => None
      | String d s' => if Ascii.eqb c d then strip_prefix p' s' else None
      end
  end.

Fixpoint str_take (k : nat) (s : string) : string :=
  match k, s with
  | S k', String c s' => String c (str_take k' s')
  | _, _ => EmptyString
  end.

Fixpoint str_drop (k : nat) (s : string) : string :=
  match k, s with
  | S k', String _ s' => str_drop k' s'
  | _, _ => s
  end.

(** Greedy repetition with backtracking: the longest length first, down to
    one character. *)
Fixpoint longest_first {A : Type} (f : nat -> option A) (k : nat) : option A :=
  match k with
  | O => None
  | S k' =>
      match f k with
      | Some r => Some r
      | None => longest_first f k'
      end
  end.

Definition newline : string := String (ascii_of_nat 10) EmptyString.

(** The backtracking match of a pattern at position [pos] of the subject,
    [s] being the text from [pos] on; the result is the group dictionary.
    [$] matches at the end of the text and just before a final newline. *)
Fixpoint match_parts (parts : list regex_part) (pos : nat) (s : string)
  {struct parts} : option (dict string) :=
  match parts with
  | [] => Some []
  | Caret :: parts' =>
      if (pos =? 0)%nat then match_parts parts' pos s else None
  | Dollar :: parts' =>
      if String.eqb s EmptyString || String.eqb s newline
      then match_parts parts' pos s else None
  | Escaped l :: parts' =>
      match strip_prefix l s with
      | Some s' => match_parts parts' (pos + String.length l) s'
      | None => None
      end
  | NamedGroup name :: parts' =>
      longest_first
        (fun k =>
           match match_parts parts' (pos + k) (str_drop k s) with
           | Some groups => Some ((name, str_take k s) :: groups)
           | None => None
           end)
        (String.length (fst (span_word s)))
  end.

Fixpoint group_names (parts : list regex_part) : list string :=
  match parts with
  | [] => []
  | NamedGroup name :: parts' => name :: group_names parts'
  | _ :: parts' => group_names parts'
  end.

Fixpoint distinct (l : list string) : bool :=
  match l with
  | [] => true
  | x :: l' => negb (mem x l') && distinct l'
  end.

(** A group name made of word characters is an identifier unless it starts
    with a digit. *)
Definition identifier (name : string) : bool :=
  match name with
  | EmptyString => false
  | String c _ => negb (is_digit c)
  end.

(** [re.match(regex, text)]: compiling the pattern raises [re.error] on a
    group name that is no identifier or that is defined twice. *)
Definition re_match (regex : list regex_part) (text : string)
  : result (option (dict string)) :=
  if forallb identifier (group_names regex) && distinct (group_names regex)
  then Ok (match_parts regex 0 text)
  else Raise (re_error "bad or redefined group name").

(** ** Signatures and coercion *)

(** [inspect.signature] refuses what is not callable. *)
Definition get_parameter_mappings (callable : node) : result (dict annotation) :=
  match callable with
  | Leaf h => Ok (h_params h)
  | _ => Raise (TypeError "is not a callable object")
  end.

Fixpoint map_params (mappings : dict annotation) (context : dict value)
  : result (dict value) :=
  match context with
  | [] => Ok []
  | (name, value) :: context' =>
      match dict_get mappings name with
      | None => Raise (KeyError name)
      | Some Signature_empty =>
          result <- map_params mappings context' ;;
          Ok ((name, value) :: result)
      | Some (Annotated mapping) =>
          converted <- mapping value ;;
          result <- map_params mappings context' ;;
          Ok ((name, converted) :: result)
      end
  end.

(** ** [get_route_response] *)

Definition startswith_brace (s : string) : bool :=
  match s with
  | String c _ => Ascii.eqb c "{"
  | EmptyString => false
  end.

Fixpoint endswith_brace (s : string) : bool :=
  match s with
  | EmptyString => false
  | String c EmptyString => Ascii.eqb c "}"
  | String _ s' => endswith_brace s'
  end.

Definition is_placeholder (segment : string) : bool :=
  startswith_brace segment && endswith_brace segment.

(** [segment[1:-1]] *)
Definition strip_braces (segment : string) : string :=
  substring 1 (String.length segment - 2) segment.

(** The local variables of the loop; [keyword] and [response] are unbound
    ([None]) until their first assignment. *)
Record walk_state : Type := {
  url_context : dict value;
  sitemap_context : node;
  keyword : option string;
  response : option value
}.

(** [sitemap_context[segment]] *)
Definition getitem (context : node) (segment : string) : result node :=
  match context with
  | Branch items =>
      match dict_get items segment with
      | Some child => Ok child
      | None => Raise (KeyError segment)
      end
  | Leaf _ => Raise (TypeError "'function' object is not subscriptable")
  | Other _ => Raise (TypeError "object is not subscriptable")
  end.

(** The value of [resource_callable] after the [isinstance] test. *)
Definition select_callable (context : node) (segment : string)
  : result (option node) :=
  match context with
  | Leaf _ => Ok (if nonempty segment then Some context else None)
  | Branch items => Ok (dict_get items "")
  | Other _ => Raise (TypeError "argument is not iterable")
  end.

(** [if resource_callable:] *)
Definition truth (resource_callable : option node) : bool :=
  match resource_callable with
  | None => false
  | Some (Leaf _) => true
  | Some (Branch items) => match items with [] => false | _ :: _ => true end
  | Some (Other truthy) => truthy
  end.

(** The body of [if resource_callable:]: coercion, the call, and the store
    of the return value under [keyword]. *)
Definition invoke (req : request) (resource_callable : node)
  (context : dict value) (kw : option string) : result (dict value * value) :=
  param_mappings <- get_parameter_mappings resource_callable ;;
  context <- map_params param_mappings context ;;
  resp <- match resource_callable with
          | Leaf h => call h req context
          | _ => Raise (TypeError "object is not callable")
          end ;;
  match kw with
  | Some keyword => Ok (dict_set context keyword resp, resp)
  | None => Raise (UnboundLocalError "keyword")
  end.

(** The binding of a placeholder segment at the head of an iteration. *)
Definition bind_segment (req : request) (st : walk_state) (segment : string)
  : result (dict value * option string) :=
  if is_placeholder segment then
    let keyword := strip_braces segment in
    match dict_get (urlvars req) keyword with
    | Some raw => Ok (dict_set (url_context st) keyword (VStr raw), Some keyword)
    | None => Raise (KeyError keyword)
    end
  else Ok (url_context st, keyword st).

(** One iteration of [for segment in route_template]. *)
Definition step (req : request) (st : walk_state) (segment : string)
  : result walk_state :=
  bound <- bind_segment req st segment ;;
  child <- getitem (sitemap_context st) segment ;;
  resource_callable <- select_callable child segment ;;
  if truth resource_callable then
    match resource_callable with
    | Some callable =>
        called <- invoke req callable (fst bound) (snd bound) ;;
        Ok {| url_context := fst called; sitemap_context := child;
              keyword := snd bound; response := Some (snd called) |}
    | None => Raise (TypeError "unreachable")
    end
  else
    Ok {| url_context := fst bound; sitemap_context := child;
          keyword := snd bound; response := response st |}.

Fixpoint walk (req : request) (st : walk_state) (segments : list string)
  : result walk_state :=
  match segments with
  | [] => Ok st
  | segment :: segments' =>
      st' <- step req st segment ;;
      walk req st' segments'
  end.

Definition initial (sitemap : node) : walk_state :=
  {| url_context := []; sitemap_context := sitemap;
     keyword := None; response := None |}.

(** [return response] *)
Definition final_response (st : walk_state) : result value :=
  match response st with
  | Some r => Ok r
  | None => Raise (UnboundLocalError "response")
  end.

Definition get_route_response (sitemap : node) (route_template : list string)
  (req : request) : result value :=
  match route_template with
  | [] => Raise StopIteration               (* next(route_template) *)
  | _ :: segments =>
      st <- walk req (initial sitemap) segments ;;
      final_response st
  end.

(** ** The controller and the application of tawdry.py *)

Definition get_callable_return_type (callable : handler)
  : option (value -> wsgi_outcome) :=
  h_return callable.

(** [replacement(env, start_response)] of [make_route_response]: only an
    [HTTPException] is caught. *)
Definition make_route_response (sitemap : node) (route_template : list string)
  (callable : handler) (env : request) : wsgi_outcome :=
  match get_route_response sitemap route_template env with
  | Raise (HTTPException status) => HTTPErrorResponse status
  | Raise e => Uncaught e
  | Ok (VExc status) => HTTPErrorResponse status
  | Ok resp =>
      match get_callable_return_type callable with
      | None => TextResponse resp
      | Some return_type => return_type resp
      end
  end.

Definition route : Type := list regex_part * (request -> wsgi_outcome).

(** [Tawdry.__init__]: the loop consumes the generator, so an exception of
    the generator leaves the constructor. *)
Definition Tawdry_init (sitemap : node) (prefix : string) : result (list route) :=
  let generated_sitemap := generate_sitemap sitemap (Some [prefix]) in
  match snd generated_sitemap with
  | Some e => Raise e
  | None =>
      Ok (map (fun r : list string * handler =>
                 (compile_route_regex (fst r),
                  make_route_response sitemap (fst r) (snd r)))
              (fst generated_sitemap))
  end.

(** [Tawdry.__call__] *)
Fixpoint Tawdry_call (routes : list route) (env : request) : wsgi_outcome :=
  match routes with
  | [] => HTTPErrorResponse 404
  | (regex, controller) :: routes' =>
      match re_match regex (path_info env) with
      | Raise e => Uncaught e
      | Ok (Some groups) => controller (set_urlvars env groups)
      | Ok None => Tawdry_call routes' env
      end
  end.

(** Building the application and serving one request path. *)
Definition serve_path (sitemap : node) (prefix : string) (path : string)
  : wsgi_outcome :=
  match Tawdry_init sitemap prefix with
  | Raise e => Uncaught e
  | Ok routes => Tawdry_call routes {| path_info := path; urlvars := [] |}
  end.

(** ** The variant of web.py *)

Module Web.

(** An element of a route template: [generate_sitemap] of web.py wraps the
    prefix it receives in a list at every call, so a template can hold
    lists as well as strings. *)
#[warnings="-register-all"]
Inductive item : Type :=
| Str (s : string)
| Lst (l : list item).

Definition generated : Type := list (list item * handler) * option exn.

Definition gen_then (g1 g2 : generated) : generated :=
  match snd g1 with
  | Some e => g1
  | None => (fst g1 ++ fst g2, snd g2)
  end.

(** [generate_sitemap] of web.py; [prefix] is [None], a string, or (in the
    recursive calls) a list.  [segment = [segment]] makes the test
    [if segment:] hold for every key. *)
Fixpoint generate_sitemap (sitemap : node) (prefix : option item)
  {struct sitemap} : generated :=
  match sitemap with
  | Branch items =>
      let prefix := match prefix with None => [] | Some p => [p] end in
      (fix loop (items : list (string * node)) {struct items} : generated :=
         match items with
         | [] => ([], None)
         | (segment, sub_segment) :: rest =>
             let segment := [Str segment] in
             match sub_segment with
             | Branch _ =>
                 gen_then
                   (generate_sitemap sub_segment (Some (Lst (prefix ++ segment))))
                   (loop rest)
             | Leaf h =>
                 let result := prefix in
                 let result :=
                   match segment with
                   | [] => result
                   | _ :: _ => result ++ segment
                   end in
                 ((result, h) :: fst (loop rest), snd (loop rest))
             | Other _ =>
                 ([], Some (ValueError "Invalid datatype for sitemap"))
             end
         end) items
  | Leaf _ => ([], Some (AttributeError "'function' object has no attribute 'items'"))
  | Other _ => ([], Some (AttributeError "object has no attribute 'items'"))
  end.

(** ['/'.join(template)] accepts strings only. *)
Fixpoint strings (template : list item) : result (list string) :=
  match template with
  | [] => Ok []
  | Str s :: template' =>
      rest <- strings template' ;;
      Ok (s :: rest)
  | Lst _ :: _ => Raise (TypeError "sequence item: expected str instance, list found")
  end.

Definition compile_route_regex (template : list item)
  : result (list regex_part) :=
  segments <- strings template ;;
  Ok (compile_route_regex segments).

(** [get_url_vars]: the loop of [get_route_response]; a list has no
    [startswith]. *)
Fixpoint walk (req : request) (st : walk_state) (segments : list item)
  : result walk_state :=
  match segments with
  | [] => Ok st
  | Str segment :: segments' =>
      st' <- step req st segment ;;
      walk req st' segments'
  | Lst _ :: _ => Raise (AttributeError "'list' object has no attribute 'startswith'")
  end.

Definition get_url_vars (sitemap : node) (route_template : list item)
  (req : request) : result value :=
  match route_template with
  | [] => Raise StopIteration
  | _ :: segments =>
      st <- walk req (initial sitemap) segments ;;
      final_response st
  end.

(** [replacement] of [make_controller]: the result is rendered with [str]
    inside the [try], so a returned [HTTPException] is sent as text; the
    return annotation of the callable is not consulted. *)
Definition make_controller (sitemap : node) (route_template : list item)
  (callable : handler) (env : request) : wsgi_outcome :=
  match get_url_vars sitemap route_template env with
  | Raise (HTTPException status) => HTTPErrorResponse status
  | Raise e => Uncaught e
  | Ok resp => BareResponse resp
  end.

(** The route table built by [serve]. *)
Fixpoint routes_of (sitemap : node) (generated_sitemap : list (list item * handler))
  : result (list route) :=
  match generated_sitemap with
  | [] => Ok []
  | (route_template, callable) :: rest =>
      compiled_route <- compile_route_regex route_template ;;
      routes <- routes_of sitemap rest ;;
      Ok ((compiled_route, make_controller sitemap route_template callable)
            :: routes)
  end.

(** The routes are compiled while the generator runs: a template that does
    not compile stops [serve] before a later invalid node is reached. *)
Definition serve_routes (sitemap : node) : result (list route) :=
  let generated_sitemap := generate_sitemap sitemap (Some (Str "")) in
  routes <- routes_of sitemap (fst generated_sitemap) ;;
  match snd generated_sitemap with
  | Some e => Raise e
  | None => Ok routes
  end.

(** [Router.__call__] is the loop of [Tawdry.__call__]. *)
Definition Router_call (routes : list route) (env : request) : wsgi_outcome :=
  Tawdry_call routes env.

End Web.

(** ** Notions used by the statements *)

(** Induction on a sitemap, through the items of its mappings. *)
Section NodeInduction.

Variable P : node -> Prop.
Hypothesis HBranch :
  forall items, Forall (fun kv => P (snd kv)) items -> P (Branch items).
Hypothesis HLeaf : forall h, P (Leaf h).
Hypothesis HOther : forall t, P (Other t).

Fixpoint node_induction (n : node) {struct n} : P n :=
  match n with
  | Branch items =>
      HBranch
        ((fix all (l : list (string * node))
            : Forall (fun kv => P (snd kv)) l :=
            match l with
            | [] => Forall_nil _
            | kv :: l' =>
                Forall_cons kv
                  (match kv as p return P (snd p) with
                   | (_, child) => node_induction child
                   end)
                  (all l')
            end) items)
  | Leaf h => HLeaf h
  | Other t => HOther t
  end.

End NodeInduction.

(** A node that is neither a mapping nor a callable occurs in the sitemap. *)
Fixpoint has_invalid (n : node) : bool :=
  match n with
  | Branch items => existsb (fun kv => has_invalid (snd kv)) items
  | Leaf _ => false
  | Other _ => true
  end.

(** The node found by following a key path from a node. *)
Fixpoint node_at (n : node) (path : list string) : option node :=
  match path with
  | [] => Some n
  | k :: path' =>
      match n with
      | Branch items =>
          match dict_get items k with
          | Some child => node_at child path'
          | None => None
          end
      | _ => None
      end
  end.


(** An item of a mapping that rebinds [prefix] in the loop of
    [generate_sitemap]: a callable under a non-empty key. *)
Definition rebinds (kv : string * node) : bool :=
  match snd kv with
  | Leaf _ => nonempty (fst kv)
  | _ => false
  end.

(** [leaf_path n path h earlier]: following the keys [path] from [n] leads
    to the callable [h]; [earlier] collects the siblings declared before the
    entries followed, at every level of the path. *)
Inductive leaf_path : node -> list string -> handler -> list (string * node) -> Prop :=
| leaf_here : forall before k h after,
    leaf_path (Branch (before ++ (k, Leaf h) :: after)) [k] h before
| leaf_below : forall before k sub after path h earlier,
    leaf_path (Branch sub) path h earlier ->
    leaf_path (Branch (before ++ (k, Branch sub) :: after)) (k :: path) h
              (before ++ earlier).

(** The keys of a path that make the segments of its route: the key of the
    callable itself is left out when it is empty. *)
Fixpoint route_keys (path : list string) : list string :=
  match path with
  | [] => []
  | [k] => if nonempty k then [k] else []
  | k :: path' => k :: route_keys path'
  end.

(** The callable that an iteration of the walk invokes, if any, when the
    walk stands at [context]. *)
Definition callable_at (context : node) (segment : string) : option node :=
  match getitem context segment with
  | Ok child =>
      match select_callable child segment with
      | Ok resource_callable =>
          if truth resource_callable then resource_callable else None
      | Raise _ => None
      end
  | Raise _ => None
  end.


(** The slash-delimited segments of a path. *)
Fixpoint split_slash (s : string) : list string :=
  match s with
  | EmptyString => [EmptyString]
  | String c s' =>
      if Ascii.eqb c "/" then EmptyString :: split_slash s'
      else match split_slash s' with
           | [] => [String c EmptyString]
           | seg :: segs => String c seg :: segs
           end
  end.

Fixpoint all_chars (p : ascii -> bool) (s : string) : bool :=
  match s with
  | EmptyString => true
  | String c s' => p c && all_chars p s'
  end.

(** A non-empty run of word characters. *)
Definition word (s : string) : bool := nonempty s && all_chars is_word s.

(** Text made of ASCII characters only. *)
Definition is_ascii (c : ascii) : bool := (nat_of_ascii c <? 128)%nat.

Definition ascii_text (s : string) : bool := all_chars is_ascii s.

(** ** Converters and sample declarations *)

(** The digits of a decimal literal, single underscores allowed between
    digits. *)
Fixpoint decimal (s : string) (acc : Z) (after_digit : bool) : option Z :=
  match s with
  | EmptyString => if after_digit then Some acc else None
  | String c s' =>
      if is_digit c then
        decimal s' (10 * acc + (Z.of_nat (nat_of_ascii c) - 48))%Z true
      else if Ascii.eqb c "_" && after_digit then decimal s' acc false
      else None
  end.

(** The blanks that [int] strips from both ends of ASCII text. *)
Definition is_space (c : ascii) : bool :=
  let n := nat_of_ascii c in
  (((9 <=? n) && (n <=? 13)) || (n =? 32))%nat.

Fixpoint lstrip (s : string) : string :=
  match s with
  | EmptyString => EmptyString
  | String c s' => if is_space c then lstrip s' else s
  end.

Fixpoint rstrip (s : string) : string :=
  match s with
  | EmptyString => EmptyString
  | String c s' =>
      match rstrip s' with
      | EmptyString => if is_space c then EmptyString else String c EmptyString
      | r => String c r
      end
  end.

(** A decimal literal with its optional sign. *)
Definition signed_decimal (s : string) : option Z :=
  match s with
  | String c s' =>
      if Ascii.eqb c "-" then
        match decimal s' 0%Z false with
        | Some z => Some (- z)%Z
        | None => None
        end
      else if Ascii.eqb c "+" then decimal s' 0%Z false
      else decimal s 0%Z false
  | EmptyString => None
  end.

(** [int] as a converter, on ASCII text: surrounding blanks are stripped,
    then an optional sign and decimal digits are read.  The text of the
    [ValueError] is shortened: Python appends the literal to it. *)
Definition py_int (v : value) : result value :=
  match v with
  | VInt z => Ok (VInt z)
  | VStr s =>
      match signed_decimal (rstrip (lstrip s)) with
      | Some z => Ok (VInt z)
      | None => Raise (ValueError "invalid literal for int() with base 10")
      end
  | _ => Raise (TypeError "int() argument must be a string or a number")
  end.

(** A handler that returns the keyword arguments it received. *)
Definition echo (params : dict annotation) : handler :=
  {| h_params := ("request", Signature_empty) :: params;
     h_return := None;
     h_body := fun _ kwargs => Ok (VDict kwargs) |}.

(** A handler that returns a fixed value. *)
Definition constant (params : dict annotation) (v : value) : handler :=
  {| h_params := ("request", Signature_empty) :: params;
     h_return := None;
     h_body := fun _ _ => Ok v |}.

Definition plain (names : list string) : dict annotation :=
  map (fun n => (n, Signature_empty)) names.

Definition publisher : handler :=
  constant [("publisher_id", Annotated py_int)] (VDict [("name", VStr "Mad Hat")]).

Definition author : handler := echo (plain ["publisher_id"; "author_id"]).

Definition book : handler :=
  echo (plain ["publisher_id"; "author_id"; "book_id"]).

(** The sitemap of the [__main__] block. *)
Definition main_sitemap : node :=
  Branch [("publisher", Branch [("{publisher_id}", Branch
    [("", Leaf publisher);
     ("author", Branch [("{author_id}", Branch
        [("", Leaf author);
         ("book", Branch [("{book_id}", Leaf book)])])])])])].

(** The sitemap of the docstring of [generate_sitemap]. *)
Definition func1 : handler := constant [] (VStr "index").
Definition func2 : handler := echo (plain ["arg"]).

Definition docstring_sitemap : node :=
  Branch [("string_literal", Branch [("", Leaf func1); ("{arg}", Leaf func2)])].

Definition request_for (path : string) : request :=
  {| path_info := path; urlvars := [] |}.

(** The exception of [generate_sitemap] on a node that is neither a mapping
    nor a callable. *)
Definition invalid_datatype : exn := ValueError "Invalid datatype for sitemap".



(** An index handler declared after a callable sibling. *)
Definition index_handler : handler := constant [] (VStr "home").

Definition flat_sitemap : node :=
  Branch [("a", Leaf func1); ("", Leaf index_handler)].

Definition sibling_sitemap : node := Branch [("shop", flat_sitemap)].

(** Two callables side by side, in both orders of declaration. *)
Definition left_handler : handler := constant (plain ["x"]) (VStr "left").
Definition right_handler : handler := constant (plain ["x"]) (VStr "right").

Definition pair_sitemap : node :=
  Branch [("{x}", Leaf left_handler); ("b", Leaf right_handler)].

Definition swapped_sitemap : node :=
  Branch [("b", Leaf right_handler); ("{x}", Leaf left_handler)].

(** The sentence on undeclared names read to the letter, on the coercer: an
    entry of the context whose name the signature does not declare comes out
    unchanged. *)
Definition undeclared_names_pass_through : Prop :=
  forall mappings context name v,
    dict_get context name = Some v ->
    dict_get mappings name = None ->
    exists result,
      map_params mappings context = Ok result /\ dict_get result name = Some v.

(** A handler that declares only the innermost placeholder of its route. *)
Definition show_book : handler := echo (plain ["book_id"]).

Definition shelf_sitemap : node :=
  Branch [("{shelf_id}", Branch [("{book_id}", Leaf show_book)])].

(** A controller whose template does not follow its sitemap: the mapping
    under [a] has the key [b] only. *)
Definition lone_sitemap : node :=
  Branch [("a", Branch [("b", Leaf func1)])].

Definition stray_template : list string := [""; "a"; "c"].


(** An outer handler that returns the text [100] and an inner handler that
    declares the outer name as [int]. *)
Definition account : handler := constant (plain ["account_id"]) (VStr "100").

Definition invoice : handler :=
  echo [("account_id", Annotated py_int); ("invoice_id", Signature_empty)].

Definition account_sitemap : node :=
  Branch [("{account_id}", Branch [("", Leaf account);
                                   ("{invoice_id}", Leaf invoice)])].

(** ** Templates and the text they match *)

(** The name of a segment of the form [{name}], [name] a non-empty run of
    word characters. *)
Definition placeholder_name (segment : string) : option string :=
  match segment with
  | String c rest =>
      if Ascii.eqb c "{" then
        match match_braces rest with
        | Some (name, EmptyString) => Some name
        | _ => None
        end
      else None
  | EmptyString => None
  end.

Definition brace_free (s : string) : bool :=
  all_chars (fun c => negb (Ascii.eqb c "{")) s.

(** A segment of the declared format: a placeholder, or literal text without
    an opening brace. *)
Definition plain_segment (segment : string) : bool :=
  match placeholder_name segment with
  | Some _ => true
  | None => brace_free segment
  end.

Fixpoint placeholder_names (template : list string) : list string :=
  match template with
  | [] => []
  | segment :: template' =>
      match placeholder_name segment with
      | Some name => name :: placeholder_names template'
      | None => placeholder_names template'
      end
  end.

(** The template with its placeholders replaced, in order, by [values]. *)
Fixpoint instantiate (template : list string) (values : list string)
  : list string :=
  match template with
  | [] => []
  | segment :: template' =>
      match placeholder_name segment with
      | Some _ =>
          match values with
          | v :: values' => v :: instantiate template' values'
          | [] => EmptyString :: instantiate template' []
          end
      | None => segment :: instantiate template' values
      end
  end.

(** The text a pattern matches when its groups take [values], in order. *)
Fixpoint fill (parts : list regex_part) (values : list string) : string :=
  match parts with
  | [] => EmptyString
  | Escaped l :: parts' => (l ++ fill parts' values)%string
  | NamedGroup _ :: parts' =>
      match values with
      | v :: values' => (v ++ fill parts' values')%string
      | [] => fill parts' []
      end
  | _ :: parts' => fill parts' values
  end.

(** The pieces of the pattern between [^] and [$]. *)
Definition tokens (s : string) : list regex_part :=
  finditer_from (String.length s) s.

Definition prepend (l : string) (parts : list regex_part) : list regex_part :=
  match parts with
  | Escaped b :: parts' => Escaped (l ++ b)%string :: parts'
  | _ => parts
  end.

(** A single placeholder at the root. *)
Definition show_item : handler := echo (plain ["item_id"]).

Definition item_sitemap : node := Branch [("{item_id}", Leaf show_item)].

(** ** Notions for the further properties *)

(** The callables of a sitemap, depth first, in the order of declaration. *)
Fixpoint callables (n : node) : list handler :=
  match n with
  | Branch items => flat_map (fun kv => callables (snd kv)) items
  | Leaf h => [h]
  | Other _ => []
  end.

(** A pattern without [^]. *)
Definition caret_free (parts : list regex_part) : bool :=
  forallb (fun p => match p with Caret => false | _ => true end) parts.

(** The group names of a pattern compile. *)
Definition valid_names (names : list string) : bool :=
  forallb identifier names && distinct names.

(** A handler that raises a structured HTTP error. *)
Definition gone : handler :=
  {| h_params := ("request", Signature_empty) :: plain ["publisher_id"];
     h_return := None;
     h_body := fun _ _ => Raise (HTTPException 410) |}.

Definition gone_sitemap : node :=
  Branch [("publisher", Branch [("{publisher_id}", Branch
    [("", Leaf gone);
     ("author", Branch [("{author_id}", Leaf author)])])])].

(** What [make_route_response] makes of a returned value. *)
Definition rendered (callable : handler) (resp : value) : wsgi_outcome :=
  match resp with
  | VExc status => HTTPErrorResponse status
  | _ =>
      match get_callable_return_type callable with
      | None => TextResponse resp
      | Some return_type => return_type resp
      end
  end.

(** A mapping all of whose entries are callables. *)
Definition flat (items : list (string * node)) : bool :=
  forallb (fun kv => match snd kv with Leaf _ => true | _ => false end) items.

(** Text at which a run of word characters stops. *)
Definition stops (text : string) : bool :=
  match text with
  | EmptyString => true
  | String c _ => negb (is_word c)
  end.

(** A template of web.py that does not compile: its first element is a
    list. *)
Definition list_headed (r : list Web.item * handler) : Prop :=
  exists l rest, fst r = Web.Lst l :: rest.

(** The list that [generate_sitemap] of web.py makes of its [prefix]. *)
Definition web_prefix (prefix : option Web.item) : list Web.item :=
  match prefix with
  | None => []
  | Some p => [p]
  end.

(** The template text that a list of pattern pieces was scanned from. *)
Fixpoint template_of (parts : list regex_part) : string :=
  match parts with
  | [] => EmptyString
  | Escaped l :: parts' => (l ++ template_of parts')%string
  | NamedGroup name :: parts' =>
      String "{" (name ++ String "}" (template_of parts'))%string
  | _ :: parts' => template_of parts'
  end.

(** The names that the placeholder segments of a list of segments bind. *)
Definition bound_names (segments : list string) : list string :=
  map strip_braces (filter is_placeholder segments).

(** C7, as stated: a path that no pattern of the table matches is answered
    with the not-found response. *)
Definition unmatched_is_not_found : Prop :=
  forall sitemap prefix routes path,
    Tawdry_init sitemap prefix = Ok routes ->
    (forall r groups,
       In r routes -> re_match (fst r) path <> Ok (Some groups)) ->
    Tawdry_call routes (request_for path) = HTTPErrorResponse 404.

(** A declaration that uses one placeholder name at two levels. *)
Definition show_part : handler := echo (plain ["id"]).

Definition repeated_name_sitemap : node :=
  Branch [("{id}", Branch [("part", Branch [("{id}", Leaf show_part)])])].
(** * Properties *)

(** ** Results, dictionaries *)

Lemma bind_ok : forall (A B : Type) (r : result A) (k : A -> result B) (b : B),
  bind r k = Ok b -> exists a, r = Ok a /\ k a = Ok b.
Proof.
  intros A B [a | e] k b H; simpl in H.
  - exists a; split; [reflexivity | exact H].
  - discriminate H.
Qed.



(** ** The generator of tawdry.py *)

Lemma generate_items_cons : forall k sub rest prefix,
  generate_items ((k, sub) :: rest) prefix =
  match sub with
  | Branch _ =>
      gen_then (generate_from sub (prefix ++ [k])) (generate_items rest prefix)
  | Leaf h =>
      let prefix := if nonempty k then prefix ++ [k] else prefix in
      gen_yield (prefix, h) (generate_items rest prefix)
  | Other _ => ([], Some invalid_datatype)
  end.
Proof. reflexivity. Qed.

Lemma gen_then_nil : forall g, gen_then ([], None) g = g.
Proof. intros [rs e]; reflexivity. Qed.

Lemma gen_then_assoc : forall g1 g2 g3,
  gen_then (gen_then g1 g2) g3 = gen_then g1 (gen_then g2 g3).
Proof.
  intros [r1 [e1 |]] [r2 [e2 |]] [r3 e3]; unfold gen_then; simpl;
    try reflexivity; now rewrite app_assoc.
Qed.

Lemma gen_yield_then : forall r g, gen_yield r g = gen_then ([r], None) g.
Proof. reflexivity. Qed.

Lemma gen_then_ok : forall g1 g2,
  snd (gen_then g1 g2) = None ->
  snd g1 = None /\ snd g2 = None /\ fst (gen_then g1 g2) = fst g1 ++ fst g2.
Proof.
  intros [r1 [e1 |]] [r2 e2]; unfold gen_then; simpl; intros H;
    [discriminate H | auto].
Qed.

(** The exception of the generator is decided by [has_invalid]. *)
Lemma generate_from_raised : forall n prefix,
  match n with
  | Branch _ =>
      snd (generate_from n prefix) =
      if has_invalid n then Some invalid_datatype else None
  | _ => True
  end.
Proof.
  induction n as [items IH | h | t] using node_induction; intros prefix;
    [| exact I | exact I].
  change (generate_from (Branch items) prefix) with (generate_items items prefix).
  revert prefix.
  induction IH as [| [k sub] rest Hsub _ IHrest]; intros prefix.
  - reflexivity.
  - rewrite generate_items_cons.
    change (has_invalid (Branch ((k, sub) :: rest)))
      with (has_invalid sub || has_invalid (Branch rest)).
    destruct sub as [sub_items | h | t].
    + pose proof (Hsub (prefix ++ [k])) as Hs. cbn [snd] in Hs.
      unfold gen_then. rewrite Hs.
      destruct (has_invalid (Branch sub_items)); cbn [orb].
      * exact Hs.
      * cbn [snd]. apply IHrest.
    + cbn [has_invalid orb gen_yield snd]. apply IHrest.
    + reflexivity.
Qed.




(** ** The segments of a route *)

Lemma generate_items_app : forall before rest prefix,
  existsb rebinds before = false ->
  generate_items (before ++ rest) prefix =
  gen_then (generate_items before prefix) (generate_items rest prefix).
Proof.
  induction before as [| [k sub] before IH]; intros rest prefix Hclean.
  - symmetry. apply gen_then_nil.
  - simpl in Hclean. apply orb_false_elim in Hclean as [Hk Hbefore].
    change (((k, sub) :: before) ++ rest) with ((k, sub) :: (before ++ rest)).
    rewrite !generate_items_cons.
    destruct sub as [sub_items | h | t].
    + rewrite (IH rest prefix Hbefore). symmetry. apply gen_then_assoc.
    + unfold rebinds in Hk. simpl in Hk. rewrite Hk. cbv zeta.
      rewrite !gen_yield_then, (IH rest prefix Hbefore).
      symmetry. apply gen_then_assoc.
    + reflexivity.
Qed.

Lemma leaf_path_nonempty : forall n path h earlier,
  leaf_path n path h earlier -> path <> [].
Proof. intros n path h earlier H; destruct H; discriminate. Qed.

Lemma route_keys_cons : forall k path,
  path <> [] -> route_keys (k :: path) = k :: route_keys path.
Proof. intros k [| k' path] H; [contradiction | reflexivity]. Qed.

Lemma leaf_route_from : forall n path h earlier,
  leaf_path n path h earlier ->
  forall prefix,
    existsb rebinds earlier = false ->
    snd (generate_from n prefix) = None ->
    In (prefix ++ route_keys path, h) (fst (generate_from n prefix)).
Proof.
  induction 1 as [before k h after | before k sub after path h earlier Hpath IH];
    intros prefix Hclean Hok.
  - change (generate_from (Branch (before ++ (k, Leaf h) :: after)) prefix)
      with (generate_items (before ++ (k, Leaf h) :: after) prefix) in *.
    rewrite (generate_items_app _ _ prefix Hclean) in *.
    apply gen_then_ok in Hok as [_ [_ Hfst]]. rewrite Hfst.
    apply in_or_app. right.
    rewrite generate_items_cons. cbv zeta. simpl.
    left. destruct (nonempty k); [reflexivity | now rewrite app_nil_r].
  - rewrite existsb_app in Hclean.
    apply orb_false_elim in Hclean as [Hbefore Hearlier].
    change (generate_from (Branch (before ++ (k, Branch sub) :: after)) prefix)
      with (generate_items (before ++ (k, Branch sub) :: after) prefix) in *.
    rewrite (generate_items_app _ _ prefix Hbefore) in *.
    apply gen_then_ok in Hok as [_ [Hrest Hfst]]. rewrite Hfst.
    rewrite generate_items_cons in *.
    apply gen_then_ok in Hrest as [Hsub [_ Hfst']]. rewrite Hfst'.
    apply in_or_app. right. apply in_or_app. left.
    rewrite (route_keys_cons k (leaf_path_nonempty Hpath)).
    replace (prefix ++ k :: route_keys path)
      with ((prefix ++ [k]) ++ route_keys path)
      by (now rewrite <- app_assoc).
    now apply IH.
Qed.

(** X13: when the declaration compiles, the route of a callable none of whose
    earlier siblings, at any level of its path, is a callable under a
    non-empty key has for segments the prefix followed by the keys on the
    path from the root to the callable, its own key left out when it is the
    empty string. *)
Lemma leaf_route_segments : forall items prefix path h earlier,
  leaf_path (Branch items) path h earlier ->
  existsb rebinds earlier = false ->
  snd (generate_sitemap (Branch items) (Some [prefix])) = None ->
  In (prefix :: route_keys path, h)
     (fst (generate_sitemap (Branch items) (Some [prefix]))).
Proof.
  intros items prefix path h earlier Hpath Hclean Hok.
  exact (leaf_route_from Hpath [prefix] Hclean Hok).
Qed.

(** The routes of the sitemap of the [__main__] block are of this kind. *)
Lemma main_routes :
  map fst (fst (generate_sitemap main_sitemap (Some [""])))
  = [[""; "publisher"; "{publisher_id}"];
     [""; "publisher"; "{publisher_id}"; "author"; "{author_id}"];
     [""; "publisher"; "{publisher_id}"; "author"; "{author_id}";
      "book"; "{book_id}"]].
Proof. reflexivity. Qed.

Lemma route_keys_index : forall path,
  route_keys (path ++ [EmptyString]) = path.
Proof.
  induction path as [| k path IH]; [reflexivity |].
  change ((k :: path) ++ [EmptyString]) with (k :: (path ++ [EmptyString])).
  rewrite route_keys_cons, IH; [reflexivity |].
  destruct path; discriminate.
Qed.

(** What the guard [if segment:] achieves: an index handler none of whose
    earlier siblings, at any level, is a callable under a non-empty key is
    routed at the path of its mapping. *)
Lemma index_route_is_branch_path : forall items prefix path h earlier,
  leaf_path (Branch items) (path ++ [EmptyString]) h earlier ->
  existsb rebinds earlier = false ->
  snd (generate_sitemap (Branch items) (Some [prefix])) = None ->
  In (prefix :: path, h)
     (fst (generate_sitemap (Branch items) (Some [prefix]))).
Proof.
  intros items prefix path h earlier Hpath Hclean Hok.
  pose proof (@leaf_route_from _ _ _ _ Hpath [prefix] Hclean Hok) as H.
  now rewrite route_keys_index in H.
Qed.

(** C2 at a failing input: in [{'shop': {'a': func1, '': index_handler}}]
    the index handler is declared in the mapping [shop], whose path is
    [/shop]; the callable [a] declared before it has rebound [prefix], so
    the route of the index handler has the segments of its sibling, its
    pattern does not match [/shop], and [/shop] is not routed at all.  In
    web.py the key is wrapped in a list before the test [if segment:], which
    then holds for every key, and the empty key is appended like any
    other. *)
Theorem index_route_takes_sibling_key :
  leaf_path sibling_sitemap ["shop"; ""] index_handler
            ([] ++ [("a", Leaf func1)])
  /\ fst (generate_sitemap sibling_sitemap (Some [""]))
     = [([""; "shop"; "a"], func1); ([""; "shop"; "a"], index_handler)]
  /\ re_match (compile_route_regex [""; "shop"; "a"]) "/shop" = Ok None
  /\ serve_path sibling_sitemap "" "/shop" = HTTPErrorResponse 404
  /\ Web.generate_sitemap (Branch [("", Leaf index_handler)])
                          (Some (Web.Str ""))
     = ([([Web.Str ""; Web.Str ""], index_handler)], None).
Proof.
  split.
  - apply (@leaf_below [] "shop" _ [] _ _ _).
    apply (@leaf_here [("a", Leaf func1)] "" index_handler []).
  - repeat split; reflexivity.
Qed.

(** C3 at a failing input: in [{'{x}': left_handler, 'b': right_handler}]
    the callable [b] sits under the single key [b], but its route has the
    segments [''], [{x}], [b], because the callable [{x}] declared before it
    has rebound [prefix]; its pattern does not match [/b].  Declared in the
    other order, [b] is routed at [/b] and it is [{x}] that gets the key of
    its sibling: the segments of a route depend on the siblings declared
    before it and on their order. *)
Theorem route_depends_on_siblings :
  leaf_path pair_sitemap ["b"] right_handler [("{x}", Leaf left_handler)]
  /\ fst (generate_sitemap pair_sitemap (Some [""]))
     = [([""; "{x}"], left_handler); ([""; "{x}"; "b"], right_handler)]
  /\ re_match (compile_route_regex [""; "{x}"; "b"]) "/b" = Ok None
  /\ fst (generate_sitemap swapped_sitemap (Some [""]))
     = [([""; "b"], right_handler); ([""; "b"; "{x}"], left_handler)].
Proof.
  split.
  - apply (@leaf_here [("{x}", Leaf left_handler)] "b" right_handler []).
  - repeat split; reflexivity.
Qed.

(** ** The coercer *)

Lemma map_params_keys : forall mappings context result,
  map_params mappings context = Ok result -> keys result = keys context.
Proof.
  induction context as [| [name v] context IH]; intros result H; simpl in H.
  - now inversion H.
  - destruct (dict_get mappings name) as [[| conv] |]; [| | discriminate H].
    + apply bind_ok in H as [r [Hr H]]. inversion H; subst; simpl.
      f_equal. now apply IH.
    + apply bind_ok in H as [v' [_ H]]. apply bind_ok in H as [r [Hr H]].
      inversion H; subst; simpl. f_equal. now apply IH.
Qed.

Lemma map_params_get : forall mappings context result name v,
  map_params mappings context = Ok result ->
  dict_get context name = Some v ->
  match dict_get mappings name with
  | Some Signature_empty => dict_get result name = Some v
  | Some (Annotated conv) =>
      exists v', conv v = Ok v' /\ dict_get result name = Some v'
  | None => False
  end.
Proof.
  induction context as [| [name0 v0] context IH]; intros result name v H Hget;
    simpl in H, Hget.
  - discriminate Hget.
  - destruct (String.eqb name0 name) eqn:E.
    + apply String.eqb_eq in E; subst name0. inversion Hget; subst v0.
      destruct (dict_get mappings name) as [[| conv] |]; [| | discriminate H].
      * apply bind_ok in H as [r [_ H]]. inversion H; subst; simpl.
        now rewrite String.eqb_refl.
      * apply bind_ok in H as [v' [Hv' H]]. apply bind_ok in H as [r [_ H]].
        inversion H; subst; simpl. rewrite String.eqb_refl. now exists v'.
    + assert (Hrest : exists r x, map_params mappings context = Ok r
                                  /\ result = (name0, x) :: r).
      { destruct (dict_get mappings name0) as [[| conv] |]; [| | discriminate H].
        - apply bind_ok in H as [r [Hr H]]. inversion H. now exists r, v0.
        - apply bind_ok in H as [v' [_ H]]. apply bind_ok in H as [r [Hr H]].
          inversion H. now exists r, v'. }
      destruct Hrest as [r [x [Hr ->]]].
      specialize (IH r name v Hr Hget).
      simpl. now rewrite E.
Qed.

Lemma map_params_undeclared : forall mappings context name,
  In name (keys context) ->
  dict_get mappings name = None ->
  exists e, map_params mappings context = Raise e.
Proof.
  induction context as [| [name0 v0] context IH]; intros name Hin Hnone;
    simpl in Hin.
  - contradiction.
  - simpl. destruct Hin as [-> | Hin].
    + rewrite Hnone. now exists (KeyError name).
    + destruct (IH name Hin Hnone) as [e He].
      destruct (dict_get mappings name0) as [[| conv] |].
      * rewrite He. now exists e.
      * destruct (conv v0) as [v' | e']; simpl; [| now exists e'].
        rewrite He. now exists e.
      * now exists (KeyError name0).
Qed.

(** C6, as stated, fails: [show_book] declares [book_id] only, and the
    coercer raises [KeyError] on the entry [shelf_id] of the context instead
    of passing it through. *)
Lemma undeclared_name_raises : ~ undeclared_names_pass_through.
Proof.
  intros H.
  destruct (H (h_params show_book)
              [("shelf_id", VStr "3"); ("book_id", VStr "9")]
              "shelf_id" (VStr "3") eq_refl eq_refl) as [result [Hres _]].
  discriminate Hres.
Qed.

(** The same through the dispatcher: the request fails with that error. *)
Lemma undeclared_name_fails_dispatch :
  serve_path shelf_sitemap "" "/3/9" = Uncaught (KeyError "shelf_id").
Proof. reflexivity. Qed.

(** The entries are coerced in order: an exception met among the first
    entries is the one that leaves the coercer. *)
Lemma map_params_prefix_raise : forall mappings before rest e,
  map_params mappings before = Raise e ->
  map_params mappings (before ++ rest) = Raise e.
Proof.
  induction before as [| [name0 v0] before IH]; intros rest e H; simpl in H.
  - discriminate H.
  - simpl. destruct (dict_get mappings name0) as [[| conv] |].
    + destruct (map_params mappings before) as [r | e0] eqn:Hb;
        simpl in H; [discriminate H |].
      now rewrite (IH rest e0 eq_refl).
    + destruct (conv v0) as [v' | e']; simpl in *; [| exact H].
      destruct (map_params mappings before) as [r | e0] eqn:Hb;
        simpl in H; [discriminate H |].
      now rewrite (IH rest e0 eq_refl).
    + exact H.
Qed.

(** An undeclared name reached after entries that were all coerced raises
    [KeyError] with that name. *)
Lemma map_params_first_undeclared : forall mappings before name v after coerced,
  map_params mappings before = Ok coerced ->
  dict_get mappings name = None ->
  map_params mappings (before ++ (name, v) :: after) = Raise (KeyError name).
Proof.
  induction before as [| [name0 v0] before IH];
    intros name v after coerced H Hnone; simpl in H.
  - simpl. now rewrite Hnone.
  - simpl. destruct (dict_get mappings name0) as [[| conv] |];
      [| | discriminate H].
    + apply bind_ok in H as [r [Hr _]].
      now rewrite (IH name v after r Hr Hnone).
    + apply bind_ok in H as [v' [Hv' H]]. apply bind_ok in H as [r [Hr _]].
      rewrite Hv'. simpl. now rewrite (IH name v after r Hr Hnone).
Qed.

(** A conversion that fails before the undeclared name is reached raises
    its own exception: [ValueError] here, although [b] is undeclared. *)
Lemma earlier_conversion_raises_first :
  map_params [("a", Annotated py_int)] [("a", VStr "x"); ("b", VStr "1")]
  = Raise (ValueError "invalid literal for int() with base 10").
Proof. reflexivity. Qed.

(** C6, amended: when the coercer returns, the context it returns has the
    names of the context it received, in the same order; an entry whose name
    the handler declares without an annotation is unchanged, and an entry
    whose name it declares with one is the result of the annotation applied
    to the value.  Every name of the context has to be declared: with a name
    absent from the signature the coercer raises and returns no context.
    The entries are coerced in order, so the exception is [KeyError] with
    the undeclared name when the entries before it were all coerced, and the
    exception of the first failing entry before it otherwise. *)
Theorem map_params_frame : forall mappings context,
  (forall result,
     map_params mappings context = Ok result ->
     keys result = keys context
     /\ forall name v,
          dict_get context name = Some v ->
          match dict_get mappings name with
          | Some Signature_empty => dict_get result name = Some v
          | Some (Annotated conv) =>
              exists v', conv v = Ok v' /\ dict_get result name = Some v'
          | None => False
          end)
  /\ (forall name,
        In name (keys context) ->
        dict_get mappings name = None ->
        exists e, map_params mappings context = Raise e)
  /\ (forall before name v after,
        context = before ++ (name, v) :: after ->
        dict_get mappings name = None ->
        (forall coerced,
           map_params mappings before = Ok coerced ->
           map_params mappings context = Raise (KeyError name))
        /\ (forall e,
              map_params mappings before = Raise e ->
              map_params mappings context = Raise e)).
Proof.
  intros mappings context. split; [| split].
  - intros result H. split.
    + now apply map_params_keys with (mappings := mappings).
    + intros name v Hget. now apply map_params_get with (context := context).
  - intros name. apply map_params_undeclared.
  - intros before name v after -> Hnone. split.
    + intros coerced Hb.
      exact (@map_params_first_undeclared mappings before name v after coerced
               Hb Hnone).
    + intros e Hb. now apply map_params_prefix_raise.
Qed.

Lemma map_params_frame_witness :
  map_params (h_params publisher)
             [("publisher_id", VStr "42")] = Ok [("publisher_id", VInt 42)]
  /\ keys [("publisher_id", VInt 42)] = keys [("publisher_id", VStr "42")]
  /\ (exists e,
        map_params (h_params show_book)
                   [("shelf_id", VStr "3"); ("book_id", VStr "9")] = Raise e)
  /\ map_params (h_params publisher)
                [("publisher_id", VStr "42"); ("author_id", VStr "7")]
     = Raise (KeyError "author_id")
  /\ map_params (h_params publisher)
                [("publisher_id", VStr "abc"); ("author_id", VStr "7")]
     = Raise (ValueError "invalid literal for int() with base 10").
Proof.
  split; [reflexivity |].
  split; [| split; [| split]].
  - apply (proj1 (map_params_frame (h_params publisher)
                                   [("publisher_id", VStr "42")])).
    reflexivity.
  - apply (proj1 (proj2 (map_params_frame (h_params show_book)
                    [("shelf_id", VStr "3"); ("book_id", VStr "9")]))
             "shelf_id").
    + simpl. now left.
    + reflexivity.
  - apply (proj1 (proj2 (proj2 (map_params_frame (h_params publisher)
                    [("publisher_id", VStr "42"); ("author_id", VStr "7")]))
                    [("publisher_id", VStr "42")] "author_id" (VStr "7") []
                    eq_refl eq_refl)
             [("publisher_id", VInt 42)]).
    reflexivity.
  - apply (proj2 (proj2 (proj2 (map_params_frame (h_params publisher)
                    [("publisher_id", VStr "abc"); ("author_id", VStr "7")]))
                    [("publisher_id", VStr "abc")] "author_id" (VStr "7") []
                    eq_refl eq_refl)).
    reflexivity.
Defined.

(** ** The walk of [get_route_response] *)

Lemma walk_app : forall req segs1 segs2 st,
  walk req st (segs1 ++ segs2) =
  bind (walk req st segs1) (fun st' => walk req st' segs2).
Proof.
  induction segs1 as [| s segs1 IH]; intros segs2 st; simpl.
  - reflexivity.
  - destruct (step req st s) as [st' | e]; simpl; [apply IH | reflexivity].
Qed.

(** An iteration that invokes a callable and completes. *)
Lemma step_invoked : forall req st segment callable st1,
  callable_at (sitemap_context st) segment = Some callable ->
  step req st segment = Ok st1 ->
  exists ctx kw h args V,
    bind_segment req st segment = Ok (ctx, Some kw)
    /\ callable = Leaf h
    /\ map_params (h_params h) ctx = Ok args
    /\ call h req args = Ok V
    /\ url_context st1 = dict_set args kw V
    /\ keyword st1 = Some kw
    /\ response st1 = Some V.
Proof.
  intros req st segment callable st1 Hc H.
  unfold step in H. unfold callable_at in Hc.
  destruct (bind_segment req st segment) as [[ctx kw] | e] eqn:Hb;
    cbn [bind fst snd] in H; [| discriminate H].
  destruct (getitem (sitemap_context st) segment) as [child | e] eqn:Hg;
    cbn [bind] in H; [| discriminate H].
  destruct (select_callable child segment) as [rc | e] eqn:Hs;
    cbn [bind] in H; [| discriminate H].
  destruct (truth rc) eqn:Ht; [| discriminate Hc].
  subst rc.
  destruct (invoke req callable ctx kw) as [[ctx' V] | e] eqn:Hi;
    cbn [bind fst snd] in H; [| discriminate H].
  inversion H; subst st1; clear H. cbn [url_context keyword response].
  unfold invoke in Hi.
  destruct callable as [items | h | t]; cbn [get_parameter_mappings bind] in Hi;
    try discriminate Hi.
  destruct (map_params (h_params h) ctx) as [args | e] eqn:Hm;
    cbn [bind] in Hi; [| discriminate Hi].
  destruct (call h req args) as [V' | e] eqn:Hcall;
    cbn [bind] in Hi; [| discriminate Hi].
  destruct kw as [k |]; [| discriminate Hi].
  inversion Hi; subst ctx' V'.
  exists ctx, k, h, args, V. repeat split; reflexivity || assumption.
Qed.

(** An iteration that invokes nothing and completes. *)
Lemma step_quiet : forall req st segment st1,
  callable_at (sitemap_context st) segment = None ->
  step req st segment = Ok st1 ->
  exists ctx kw,
    bind_segment req st segment = Ok (ctx, kw)
    /\ url_context st1 = ctx
    /\ keyword st1 = kw
    /\ response st1 = response st.
Proof.
  intros req st segment st1 Hc H.
  unfold step in H. unfold callable_at in Hc.
  destruct (bind_segment req st segment) as [[ctx kw] | e] eqn:Hb;
    cbn [bind fst snd] in H; [| discriminate H].
  destruct (getitem (sitemap_context st) segment) as [child | e] eqn:Hg;
    cbn [bind] in H; [| discriminate H].
  destruct (select_callable child segment) as [rc | e] eqn:Hs;
    cbn [bind] in H; [| discriminate H].
  destruct (truth rc) eqn:Ht.
  - destruct rc; [discriminate Hc | discriminate Ht].
  - inversion H; subst st1. now exists ctx, kw.
Qed.

Lemma bind_segment_literal : forall req st segment,
  is_placeholder segment = false ->
  bind_segment req st segment = Ok (url_context st, keyword st).
Proof. intros req st segment H. unfold bind_segment. now rewrite H. Qed.


(** Where the lookup of the next segment fails, the walk raises [KeyError]. *)
Lemma step_missing_child : forall req st segment items,
  sitemap_context st = Branch items ->
  dict_get items segment = None ->
  exists key, step req st segment = Raise (KeyError key).
Proof.
  intros req st segment items Hctx Hnone. unfold step, bind_segment.
  destruct (is_placeholder segment).
  - destruct (dict_get (urlvars req) (strip_braces segment)); cbn [bind].
    + rewrite Hctx. cbn [getitem]. rewrite Hnone. now exists segment.
    + now exists (strip_braces segment).
  - cbn [bind]. rewrite Hctx. cbn [getitem]. rewrite Hnone. now exists segment.
Qed.

Lemma get_route_response_raise : forall sitemap prefix pre segment post req st e,
  walk req (initial sitemap) pre = Ok st ->
  step req st segment = Raise e ->
  get_route_response sitemap (prefix :: pre ++ segment :: post) req = Raise e.
Proof.
  intros sitemap prefix pre segment post req st e Hpre Hstep.
  unfold get_route_response. rewrite walk_app, Hpre. cbn [bind walk].
  now rewrite Hstep.
Qed.

Lemma make_route_response_uncaught : forall sitemap template callable env e,
  get_route_response sitemap template env = Raise e ->
  is_http e = false ->
  make_route_response sitemap template callable env = Uncaught e.
Proof.
  intros sitemap template callable env e H Hhttp.
  unfold make_route_response. rewrite H.
  destruct e; try reflexivity. discriminate Hhttp.
Qed.

(** C4, as stated, fails: the path [/a/c] matches the pattern compiled from
    the template of the controller, the walk reaches the mapping under [a],
    which has neither the key [c] nor an empty key, and the controller lets
    the [KeyError] of the lookup escape instead of answering 404. *)
Lemma lookup_failure_escapes :
  re_match (compile_route_regex stray_template) "/a/c" = Ok (Some [])
  /\ (exists st items,
        walk (request_for "/a/c") (initial lone_sitemap) ["a"] = Ok st
        /\ sitemap_context st = Branch items
        /\ dict_get items "c" = None
        /\ dict_get items "" = None)
  /\ make_route_response lone_sitemap stray_template func1 (request_for "/a/c")
     = Uncaught (KeyError "c")
  /\ Tawdry_call [(compile_route_regex stray_template,
                   make_route_response lone_sitemap stray_template func1)]
                 (request_for "/a/c")
     <> HTTPErrorResponse 404.
Proof.
  split; [reflexivity |].
  split; [do 2 eexists; repeat split; reflexivity |].
  split; [reflexivity |].
  vm_compute. discriminate.
Qed.

(** C4, amended: when the walk reaches a mapping that has no entry for the
    next segment of the template, the lookup raises [KeyError], the
    controller does not catch it, and the exception leaves the application
    uncaught; no 404 response is produced. *)
Theorem lookup_failure_is_uncaught :
  forall sitemap prefix pre segment post callable env st items,
    walk env (initial sitemap) pre = Ok st ->
    sitemap_context st = Branch items ->
    dict_get items segment = None ->
    exists key,
      get_route_response sitemap (prefix :: pre ++ segment :: post) env
      = Raise (KeyError key)
      /\ make_route_response sitemap (prefix :: pre ++ segment :: post)
                             callable env
         = Uncaught (KeyError key).
Proof.
  intros sitemap prefix pre segment post callable env st items Hpre Hctx Hnone.
  destruct (step_missing_child env st segment Hctx Hnone) as [key Hstep].
  exists key.
  assert (H : get_route_response sitemap (prefix :: pre ++ segment :: post) env
              = Raise (KeyError key))
    by (now apply get_route_response_raise with (st := st)).
  split; [exact H |].
  now apply make_route_response_uncaught.
Qed.

Lemma lookup_failure_is_uncaught_witness :
  walk (request_for "/a/c") (initial lone_sitemap) ["a"]
  = Ok {| url_context := []; sitemap_context := Branch [("b", Leaf func1)];
          keyword := None; response := None |}
  /\ dict_get [("b", Leaf func1)] "c" = None
  /\ exists key,
       get_route_response lone_sitemap ("" :: ["a"] ++ "c" :: [])
                          (request_for "/a/c")
       = Raise (KeyError key)
       /\ make_route_response lone_sitemap ("" :: ["a"] ++ "c" :: []) func1
                              (request_for "/a/c")
          = Uncaught (KeyError key).
Proof.
  split; [reflexivity |].
  split; [reflexivity |].
  apply (@lookup_failure_is_uncaught lone_sitemap "" ["a"] "c" [] func1
           (request_for "/a/c")
           {| url_context := []; sitemap_context := Branch [("b", Leaf func1)];
              keyword := None; response := None |}
           [("b", Leaf func1)]); reflexivity.
Defined.

(** A walk that fails on a template made by the generator itself: the route
    of [b] in [pair_sitemap] runs through the callable [{x}], which cannot be
    indexed. *)
Lemma walk_through_callable_escapes :
  serve_path pair_sitemap "" "/1/b"
  = Uncaught (TypeError "'function' object is not subscriptable").
Proof. reflexivity. Qed.

(** An iteration that reaches a callable continues with its invocation. *)
Lemma step_at_callable : forall req st segment callable ctx kw,
  callable_at (sitemap_context st) segment = Some callable ->
  bind_segment req st segment = Ok (ctx, kw) ->
  exists child,
    step req st segment =
    bind (invoke req callable ctx kw)
         (fun called =>
            Ok {| url_context := fst called; sitemap_context := child;
                  keyword := kw; response := Some (snd called) |}).
Proof.
  intros req st segment callable ctx kw Hc Hb.
  unfold step. unfold callable_at in Hc. rewrite Hb. cbn [bind fst snd].
  destruct (getitem (sitemap_context st) segment) as [child | e];
    [| discriminate Hc].
  cbn [bind].
  destruct (select_callable child segment) as [rc | e]; [| discriminate Hc].
  cbn [bind]. destruct (truth rc); [| discriminate Hc].
  subst rc. exists child. reflexivity.
Qed.

Lemma map_params_conversion_raise :
  forall mappings before name v after conv e coerced,
    map_params mappings before = Ok coerced ->
    dict_get mappings name = Some (Annotated conv) ->
    conv v = Raise e ->
    map_params mappings (before ++ (name, v) :: after) = Raise e.
Proof.
  induction before as [| [name0 v0] before IH];
    intros name v after conv e coerced Hbefore Hann Hconv.
  - simpl. now rewrite Hann, Hconv.
  - simpl in Hbefore |- *.
    destruct (dict_get mappings name0) as [[| conv0] |]; [| | discriminate Hbefore].
    + apply bind_ok in Hbefore as [r [Hr _]].
      now rewrite (IH name v after conv e r Hr Hann Hconv).
    + apply bind_ok in Hbefore as [v' [Hv' Hbefore]].
      apply bind_ok in Hbefore as [r [Hr _]].
      rewrite Hv'. cbn [bind].
      now rewrite (IH name v after conv e r Hr Hann Hconv).
Qed.

(** C5, as stated, fails on the sitemap of the [__main__] block: [abc] is
    captured for [publisher_id], which [publisher] declares as [int]; the
    conversion raises [ValueError], nothing catches it, and the request ends
    with that exception, not with a 400-class response. *)
Lemma malformed_parameter_escapes :
  re_match (compile_route_regex [""; "publisher"; "{publisher_id}"])
           "/publisher/abc"
  = Ok (Some [("publisher_id", "abc")])
  /\ py_int (VStr "abc")
     = Raise (ValueError "invalid literal for int() with base 10")
  /\ serve_path main_sitemap "" "/publisher/abc"
     = Uncaught (ValueError "invalid literal for int() with base 10")
  /\ forall status,
       serve_path main_sitemap "" "/publisher/abc" <> HTTPErrorResponse status.
Proof.
  split; [reflexivity |].
  split; [reflexivity |].
  split; [reflexivity |].
  intros status. vm_compute. discriminate.
Qed.

(** C5, amended: when the conversion of a value of the context by the type
    a handler declares for it raises an exception, the walk raises that
    exception; the controller answers with it only if it is itself an
    [HTTPException], and otherwise (as for the [ValueError] of [int]) the
    exception leaves the application uncaught.  No 400-class response is
    made by the dispatcher. *)
Theorem conversion_failure_is_uncaught :
  forall sitemap prefix pre segment post callable env st ctx kw h
         before name raw after coerced conv e,
    walk env (initial sitemap) pre = Ok st ->
    bind_segment env st segment = Ok (ctx, kw) ->
    callable_at (sitemap_context st) segment = Some (Leaf h) ->
    ctx = before ++ (name, raw) :: after ->
    map_params (h_params h) before = Ok coerced ->
    dict_get (h_params h) name = Some (Annotated conv) ->
    conv raw = Raise e ->
    get_route_response sitemap (prefix :: pre ++ segment :: post) env = Raise e
    /\ make_route_response sitemap (prefix :: pre ++ segment :: post)
                           callable env
       = match e with
         | HTTPException status => HTTPErrorResponse status
         | _ => Uncaught e
         end.
Proof.
  intros sitemap prefix pre segment post callable env st ctx kw h
         before name raw after coerced conv e
         Hpre Hb Hc Hctx Hbefore Hann Hconv.
  assert (Hmap : map_params (h_params h) ctx = Raise e).
  { subst ctx. now apply map_params_conversion_raise with (conv := conv)
                                                          (coerced := coerced). }
  assert (Hstep : step env st segment = Raise e).
  { destruct (step_at_callable env st segment Hc Hb) as [child ->].
    unfold invoke. cbn [get_parameter_mappings bind]. now rewrite Hmap. }
  assert (H : get_route_response sitemap (prefix :: pre ++ segment :: post) env
              = Raise e)
    by (now apply get_route_response_raise with (st := st)).
  split; [exact H |].
  unfold make_route_response. rewrite H. now destruct e.
Qed.

Lemma conversion_failure_is_uncaught_witness :
  make_route_response main_sitemap
    ("" :: ["publisher"] ++ "{publisher_id}" :: []) publisher
    {| path_info := "/publisher/abc"; urlvars := [("publisher_id", "abc")] |}
  = Uncaught (ValueError "invalid literal for int() with base 10").
Proof.
  refine (proj2 (@conversion_failure_is_uncaught main_sitemap ""
            ["publisher"] "{publisher_id}" [] publisher
            {| path_info := "/publisher/abc";
               urlvars := [("publisher_id", "abc")] |}
            _ [("publisher_id", VStr "abc")] (Some "publisher_id") publisher
            [] "publisher_id" (VStr "abc") [] [] py_int
            (ValueError "invalid literal for int() with base 10")
            _ _ _ _ _ _ _)); reflexivity.
Defined.

(** ** The store of the return value *)

(** With [keyword] unbound an invocation cannot complete: at the latest the
    store raises. *)
Lemma invoke_unbound : forall req callable ctx,
  (exists e, invoke req callable ctx None = Raise e)
  /\ forall h args V,
       callable = Leaf h ->
       map_params (h_params h) ctx = Ok args ->
       call h req args = Ok V ->
       invoke req callable ctx None = Raise (UnboundLocalError "keyword").
Proof.
  intros req callable ctx. split.
  - unfold invoke.
    destruct (get_parameter_mappings callable) as [pm | e]; cbn [bind];
      [| now exists e].
    destruct (map_params pm ctx) as [args | e]; cbn [bind]; [| now exists e].
    destruct (match callable with
              | Leaf h => call h req args
              | _ => Raise (TypeError "object is not callable")
              end) as [V | e]; cbn [bind]; [| now exists e].
    now exists (UnboundLocalError "keyword").
  - intros h args V -> Hm Hcall. unfold invoke.
    cbn [get_parameter_mappings bind]. rewrite Hm. cbn [bind].
    now rewrite Hcall.
Qed.

(** Literal segments leave the context, [keyword] and [response] as they
    are, as long as the walk goes on. *)
Lemma walk_literals : forall req segments st st',
  Forall (fun s => is_placeholder s = false) segments ->
  keyword st = None ->
  walk req st segments = Ok st' ->
  keyword st' = None
  /\ url_context st' = url_context st
  /\ response st' = response st.
Proof.
  induction segments as [| s segments IH]; intros st st' Hlit Hkw H.
  - simpl in H. inversion H; subst. auto.
  - inversion Hlit as [| ? ? Hs Hrest]; subst.
    simpl in H. apply bind_ok in H as [st1 [Hstep H]].
    pose proof (bind_segment_literal req st s Hs) as Hb.
    destruct (callable_at (sitemap_context st) s) as [c |] eqn:Hc.
    + destruct (step_invoked req st s Hc Hstep)
        as [ctx [kw [h [args [V [Hb' _]]]]]].
      rewrite Hb in Hb'. inversion Hb' as [[Hctx Hk]].
      rewrite Hkw in Hk. discriminate Hk.
    + destruct (step_quiet req st s Hc Hstep) as [ctx [kw [Hb' [Hc1 [Hk1 Hr1]]]]].
      rewrite Hb in Hb'. inversion Hb'; subst ctx kw.
      destruct (IH st1 st' Hrest) as [Hk' [Hc' Hr']]; [congruence | exact H |].
      repeat split; congruence.
Qed.

Lemma first_placeholder : forall segments,
  Forall (fun s => is_placeholder s = false) segments
  \/ exists pre segment post,
       segments = pre ++ segment :: post
       /\ Forall (fun s => is_placeholder s = false) pre
       /\ is_placeholder segment = true.
Proof.
  induction segments as [| s segments IH].
  - left. constructor.
  - destruct (is_placeholder s) eqn:Hs.
    + right. exists [], s, segments. repeat split; [constructor | exact Hs].
    + destruct IH as [IH | [pre [segment [post [-> [Hpre Hseg]]]]]].
      * left. now constructor.
      * right. exists (s :: pre), segment, post.
        repeat split; [now constructor | exact Hseg].
Qed.

(** C10: take a template whose segments up to and including [segment] are
    all literal, and let the walk reach at [segment] a node that it invokes.
    Then [get_route_response] raises; when the handler returns a value the
    exception is the [UnboundLocalError] of the store under [keyword], and
    it leaves the controller uncaught.  Conversely, whenever
    [get_route_response] returns a value, the template has a placeholder
    segment that the walk reaches before any handler has returned. *)
Theorem handler_before_placeholder_fails : forall sitemap env,
  (forall prefix pre segment post st target,
     Forall (fun s => is_placeholder s = false) (pre ++ [segment]) ->
     walk env (initial sitemap) pre = Ok st ->
     callable_at (sitemap_context st) segment = Some target ->
     (exists e,
        get_route_response sitemap (prefix :: pre ++ segment :: post) env
        = Raise e)
     /\ forall h V callable,
          target = Leaf h ->
          call h env [] = Ok V ->
          get_route_response sitemap (prefix :: pre ++ segment :: post) env
          = Raise (UnboundLocalError "keyword")
          /\ make_route_response sitemap (prefix :: pre ++ segment :: post)
                                 callable env
             = Uncaught (UnboundLocalError "keyword"))
  /\ (forall template v,
        get_route_response sitemap template env = Ok v ->
        exists prefix pre segment post st,
          template = prefix :: pre ++ segment :: post
          /\ Forall (fun s => is_placeholder s = false) pre
          /\ is_placeholder segment = true
          /\ walk env (initial sitemap) pre = Ok st
          /\ response st = None).
Proof.
  intros sitemap env. split.
  - intros prefix pre segment post st target Hlit Hpre Hc.
    apply Forall_app in Hlit as [Hlit Hseg].
    inversion Hseg as [| ? ? Hs _]; subst.
    destruct (@walk_literals env pre (initial sitemap) st Hlit eq_refl Hpre)
      as [Hkw [Hctx _]].
    pose proof (bind_segment_literal env st segment Hs) as Hb.
    rewrite Hkw, Hctx in Hb. cbn [initial url_context] in Hb.
    destruct (step_at_callable env st segment Hc Hb) as [child Hstep].
    destruct (invoke_unbound env target []) as [[e He] Hret].
    split.
    + exists e. apply get_route_response_raise with (st := st); [exact Hpre |].
      rewrite Hstep, He. reflexivity.
    + intros h V callable Htarget Hcall.
      assert (H : get_route_response sitemap
                    (prefix :: pre ++ segment :: post) env
                  = Raise (UnboundLocalError "keyword")).
      { apply get_route_response_raise with (st := st); [exact Hpre |].
        rewrite Hstep, (Hret h [] V Htarget eq_refl Hcall). reflexivity. }
      split; [exact H |].
      now apply make_route_response_uncaught.
  - intros template v H. unfold get_route_response in H.
    destruct template as [| prefix segments]; [discriminate H |].
    apply bind_ok in H as [st' [Hwalk Hfinal]].
    destruct (first_placeholder segments)
      as [Hlit | [pre [segment [post [-> [Hpre Hseg]]]]]].
    + destruct (@walk_literals env segments (initial sitemap) st' Hlit eq_refl Hwalk)
        as [_ [_ Hr]].
      unfold final_response in Hfinal. rewrite Hr in Hfinal. discriminate Hfinal.
    + rewrite walk_app in Hwalk. apply bind_ok in Hwalk as [st [Hst _]].
      exists prefix, pre, segment, post, st.
      destruct (@walk_literals env pre (initial sitemap) st Hpre eq_refl Hst)
        as [_ [_ Hr]].
      repeat split; assumption.
Qed.

Lemma handler_before_placeholder_fails_witness :
  make_route_response docstring_sitemap
    ("" :: [] ++ "string_literal" :: ["{arg}"]) func2
    {| path_info := "/string_literal/x"; urlvars := [("arg", "x")] |}
  = Uncaught (UnboundLocalError "keyword").
Proof.
  refine (proj2 (proj2 (proj1 (@handler_before_placeholder_fails
            docstring_sitemap
            {| path_info := "/string_literal/x"; urlvars := [("arg", "x")] |})
            "" [] "string_literal" ["{arg}"] _ (Leaf func1) _ _ _)
            func1 (VStr "index") func2 eq_refl eq_refl)).
  - repeat constructor.
  - reflexivity.
  - reflexivity.
Defined.

(** Both routes of the sitemap of the docstring fail in this way. *)
Lemma docstring_routes_fail :
  serve_path docstring_sitemap "" "/string_literal"
  = Uncaught (UnboundLocalError "keyword")
  /\ serve_path docstring_sitemap "" "/string_literal/x"
     = Uncaught (UnboundLocalError "keyword").
Proof. split; reflexivity. Qed.

(** ** Chaining *)



(** The request as a whole: the inner handler answers with what it got. *)
Lemma chained_value_is_converted_served :
  serve_path account_sitemap "" "/7/3"
  = TextResponse (VDict [("account_id", VInt 100); ("invoice_id", VStr "3")]).
Proof. reflexivity. Qed.



(** The example of the chain: the author handler is called with the value
    that the publisher handler returned. *)
Lemma main_chain :
  serve_path main_sitemap "" "/publisher/42/author/7"
  = TextResponse (VDict [("publisher_id", VDict [("name", VStr "Mad Hat")]);
                         ("author_id", VStr "7")]).
Proof. reflexivity. Qed.

(** ** The dispatcher *)

Lemma Tawdry_call_skip : forall (before rest : list route) env,
  Forall (fun r : route => re_match (fst r) (path_info env) = Ok None) before ->
  Tawdry_call (before ++ rest) env = Tawdry_call rest env.
Proof.
  induction before as [| [regex controller] before IH]; intros rest env H.
  - reflexivity.
  - inversion H as [| ? ? Hhead Htail]; subst. simpl in Hhead |- *.
    rewrite Hhead. now apply IH.
Qed.

(** C7, as stated, fails: the declaration [repeated_name_sitemap] is made
    of mappings and a callable only, and the pattern of its one route names
    the group [id] twice.  No pattern matches the path [/nowhere], and the
    request ends in the uncaught [re.error] instead of the not-found
    response. *)
Lemma refused_pattern_is_not_404 : ~ unmatched_is_not_found.
Proof.
  intros H.
  specialize (H repeated_name_sitemap "" _ "/nowhere" eq_refl).
  assert (Hnone : forall (r : route) groups,
            In r [(compile_route_regex [""; "{id}"; "part"; "{id}"],
                   make_route_response repeated_name_sitemap
                     [""; "{id}"; "part"; "{id}"] show_part)] ->
            re_match (fst r) "/nowhere" <> Ok (Some groups)).
  { intros r groups [<- | []]. discriminate. }
  specialize (H Hnone). discriminate H.
Qed.

(** The same with a route that matches the path: [/about] is declared
    after the repeated name and is never reached. *)
Lemma refused_pattern_hides_later_routes :
  serve_path
    (Branch [("{id}", Branch [("part", Branch [("{id}", Leaf show_part)])]);
             ("about", Leaf index_handler)])
    "" "/about"
  = Uncaught (re_error "bad or redefined group name").
Proof. reflexivity. Qed.

(** C7, amended: the route table holds the compiled routes in the order in
    which the generator yields them, that is the order of declaration; the
    dispatcher tries the patterns of the table in that order and stops at the
    first one that does not simply fail to match.  If that pattern matches
    the path, the request is handed to the controller of its route, with the
    groups of the match as [urlvars]; if [re.match] refuses that pattern,
    the [re.error] leaves the application uncaught, no controller runs and
    no later route is tried; if every pattern of the table is accepted by
    [re.match] and fails to match, the answer is the 404 response.  A 404
    response has no other origin than that and a controller that was
    dispatched to and answered with it. *)
Theorem first_match_dispatch :
  (forall sitemap prefix routes,
     Tawdry_init sitemap prefix = Ok routes ->
     map fst routes
     = map (fun r => compile_route_regex (fst r))
           (fst (generate_sitemap sitemap (Some [prefix]))))
  /\ (forall (routes : list route) env,
        (forall before regex controller after groups,
           routes = before ++ (regex, controller) :: after ->
           Forall (fun r : route => re_match (fst r) (path_info env) = Ok None)
                  before ->
           re_match regex (path_info env) = Ok (Some groups) ->
           Tawdry_call routes env = controller (set_urlvars env groups))
        /\ (forall before regex controller after e,
              routes = before ++ (regex, controller) :: after ->
              Forall (fun r : route =>
                        re_match (fst r) (path_info env) = Ok None) before ->
              re_match regex (path_info env) = Raise e ->
              Tawdry_call routes env = Uncaught e)
        /\ (Forall (fun r : route => re_match (fst r) (path_info env) = Ok None)
                   routes ->
            Tawdry_call routes env = HTTPErrorResponse 404)
        /\ (Tawdry_call routes env = HTTPErrorResponse 404 ->
            Forall (fun r : route => re_match (fst r) (path_info env) = Ok None)
                   routes
            \/ exists before regex controller after groups,
                 routes = before ++ (regex, controller) :: after
                 /\ Forall (fun r : route =>
                              re_match (fst r) (path_info env) = Ok None) before
                 /\ re_match regex (path_info env) = Ok (Some groups)
                 /\ controller (set_urlvars env groups) = HTTPErrorResponse 404)).
Proof.
  split.
  - intros sitemap prefix routes H. unfold Tawdry_init in H.
    destruct (snd (generate_sitemap sitemap (Some [prefix]))); [discriminate H |].
    inversion H; subst routes. rewrite map_map. reflexivity.
  - intros routes env. split; [| split; [| split]].
    + intros before regex controller after groups -> Hbefore Hmatch.
      rewrite (Tawdry_call_skip _ _ Hbefore). simpl. now rewrite Hmatch.
    + intros before regex controller after e -> Hbefore Hraise.
      rewrite (Tawdry_call_skip _ _ Hbefore). simpl. now rewrite Hraise.
    + intros Hnone.
      rewrite <- (app_nil_r routes), (Tawdry_call_skip _ _ Hnone).
      reflexivity.
    + induction routes as [| [regex controller] routes IH]; intros H.
      * left. constructor.
      * simpl in H.
        destruct (re_match regex (path_info env)) as [[groups |] | e] eqn:Hm.
        -- right. exists [], regex, controller, routes, groups.
           repeat split; [constructor | exact Hm | exact H].
        -- destruct (IH H)
             as [Hall | [before [regex' [controller' [after [groups
                  [-> [Hbefore [Hm' Hc]]]]]]]]].
           ++ left. constructor; [exact Hm | exact Hall].
           ++ right.
              exists ((regex, controller) :: before), regex', controller',
                     after, groups.
              repeat split; [now constructor | exact Hm' | exact Hc].
        -- discriminate H.
Qed.

Lemma first_match_dispatch_witness :
  Tawdry_call
    ([(compile_route_regex [""; "publisher"; "{publisher_id}"],
       make_route_response main_sitemap [""; "publisher"; "{publisher_id}"]
                           publisher)]
     ++ (compile_route_regex
           [""; "publisher"; "{publisher_id}"; "author"; "{author_id}"],
         make_route_response main_sitemap
           [""; "publisher"; "{publisher_id}"; "author"; "{author_id}"] author)
     :: [])
    (request_for "/publisher/42/author/7")
  = make_route_response main_sitemap
      [""; "publisher"; "{publisher_id}"; "author"; "{author_id}"] author
      (set_urlvars (request_for "/publisher/42/author/7")
                   [("publisher_id", "42"); ("author_id", "7")])
  /\ Tawdry_call
       [(compile_route_regex [""; "publisher"; "{publisher_id}"],
         make_route_response main_sitemap [""; "publisher"; "{publisher_id}"]
                             publisher)]
       (request_for "/nowhere")
     = HTTPErrorResponse 404
  /\ Tawdry_call
       ([(compile_route_regex [""; "about"],
          make_route_response repeated_name_sitemap [""; "about"] index_handler)]
        ++ (compile_route_regex [""; "{id}"; "part"; "{id}"],
            make_route_response repeated_name_sitemap
              [""; "{id}"; "part"; "{id}"] show_part)
        :: [])
       (request_for "/nowhere")
     = Uncaught (re_error "bad or redefined group name")
  /\ (Forall (fun r : route =>
                re_match (fst r)
                         (path_info (request_for "/publisher/42/extra")) = Ok None)
             [(compile_route_regex [""; "publisher"; "{publisher_id}"],
               make_route_response main_sitemap
                 [""; "publisher"; "{publisher_id}"] publisher)]
      \/ exists before regex controller after groups,
           [(compile_route_regex [""; "publisher"; "{publisher_id}"],
             make_route_response main_sitemap
               [""; "publisher"; "{publisher_id}"] publisher)]
           = before ++ (regex, controller) :: after
           /\ Forall (fun r : route =>
                        re_match (fst r)
                          (path_info (request_for "/publisher/42/extra"))
                        = Ok None) before
           /\ re_match regex (path_info (request_for "/publisher/42/extra"))
              = Ok (Some groups)
           /\ controller (set_urlvars (request_for "/publisher/42/extra") groups)
              = HTTPErrorResponse 404).
Proof.
  split; [| split; [| split]].
  - apply (proj1 (proj2 first_match_dispatch _ _)
             [(compile_route_regex [""; "publisher"; "{publisher_id}"],
               make_route_response main_sitemap
                 [""; "publisher"; "{publisher_id}"] publisher)]
             (compile_route_regex
                [""; "publisher"; "{publisher_id}"; "author"; "{author_id}"])
             (make_route_response main_sitemap
                [""; "publisher"; "{publisher_id}"; "author"; "{author_id}"]
                author)
             []).
    + reflexivity.
    + repeat constructor.
    + reflexivity.
  - apply (proj1 (proj2 (proj2 (proj2 first_match_dispatch _ _)))).
    repeat constructor.
  - apply (proj1 (proj2 (proj2 first_match_dispatch _ _))
             [(compile_route_regex [""; "about"],
               make_route_response repeated_name_sitemap [""; "about"]
                 index_handler)]
             (compile_route_regex [""; "{id}"; "part"; "{id}"])
             (make_route_response repeated_name_sitemap
                [""; "{id}"; "part"; "{id}"] show_part)
             []).
    + reflexivity.
    + repeat constructor.
    + reflexivity.
  - apply (proj2 (proj2 (proj2 (proj2 first_match_dispatch _ _)))).
    reflexivity.
Defined.

(** Served through the application: an unknown path, a path with a missing
    segment and a path with an extra segment are answered with 404. *)
Lemma unknown_paths_not_found :
  serve_path main_sitemap "" "/nowhere" = HTTPErrorResponse 404
  /\ serve_path main_sitemap "" "/publisher/42/author" = HTTPErrorResponse 404
  /\ serve_path main_sitemap "" "/publisher/42/extra/1/2" = HTTPErrorResponse 404.
Proof. repeat split; reflexivity. Qed.

(** ** Text *)

Lemma str_app_assoc : forall a b c : string,
  ((a ++ b) ++ c = a ++ (b ++ c))%string.
Proof. induction a as [| x a IH]; intros b c; simpl; [| rewrite IH]; reflexivity. Qed.

Lemma str_app_nil_r : forall a : string, (a ++ "" = a)%string.
Proof. induction a as [| x a IH]; simpl; [| rewrite IH]; reflexivity. Qed.

Lemma str_length_app : forall a b : string,
  String.length (a ++ b)%string = String.length a + String.length b.
Proof. induction a as [| x a IH]; intros b; simpl; [| rewrite IH]; reflexivity. Qed.

Lemma all_chars_app : forall p (a b : string),
  all_chars p (a ++ b)%string = all_chars p a && all_chars p b.
Proof.
  induction a as [| x a IH]; intros b; simpl.
  - reflexivity.
  - rewrite IH. now rewrite andb_assoc.
Qed.

Lemma span_word_spec : forall s w r,
  span_word s = (w, r) ->
  s = (w ++ r)%string
  /\ all_chars is_word w = true
  /\ match r with
     | EmptyString => True
     | String c _ => is_word c = false
     end.
Proof.
  induction s as [| c s IH]; intros w r H; simpl in H.
  - inversion H; subst. auto.
  - destruct (is_word c) eqn:Hc.
    + destruct (span_word s) as [w' r'] eqn:Hs. inversion H; subst.
      destruct (IH w' r eq_refl) as [-> [Hw Hr]].
      simpl. rewrite Hc, Hw. auto.
    + inversion H; subst. simpl. auto.
Qed.

Lemma span_word_stop : forall w c r,
  all_chars is_word w = true ->
  is_word c = false ->
  span_word (w ++ String c r)%string = (w, String c r).
Proof.
  induction w as [| x w IH]; intros c r Hw Hc; simpl in *.
  - now rewrite Hc.
  - apply andb_prop in Hw as [Hx Hw]. now rewrite Hx, (IH c r Hw Hc).
Qed.

Lemma match_braces_spec : forall s name after,
  match_braces s = Some (name, after) ->
  s = (name ++ String "}" after)%string /\ word name = true.
Proof.
  intros s name after H. unfold match_braces in H.
  destruct (span_word s) as [w r] eqn:Hs.
  destruct (@span_word_spec s w r Hs) as [-> [Hw _]].
  destruct w as [| x w]; [discriminate H |].
  destruct r as [| c r]; [discriminate H |].
  destruct (Ascii.eqb c "}") eqn:Hc; [| discriminate H].
  apply Ascii.eqb_eq in Hc; subst c. inversion H; subst.
  split; [reflexivity |]. unfold word. simpl in Hw |- *. exact Hw.
Qed.

Lemma match_braces_word : forall name after,
  word name = true ->
  match_braces (name ++ String "}" after)%string = Some (name, after).
Proof.
  intros name after H. unfold word in H. apply andb_prop in H as [Hne Hw].
  unfold match_braces. rewrite (@span_word_stop name "}" after Hw eq_refl).
  destruct name; [discriminate Hne | reflexivity].
Qed.

Lemma placeholder_name_spec : forall segment name,
  placeholder_name segment = Some name ->
  segment = String "{" (name ++ "}")%string /\ word name = true.
Proof.
  intros segment name H. unfold placeholder_name in H.
  destruct segment as [| c rest]; [discriminate H |].
  destruct (Ascii.eqb c "{") eqn:Hc; [| discriminate H].
  apply Ascii.eqb_eq in Hc; subst c.
  destruct (match_braces rest) as [[n after] |] eqn:Hm; [| discriminate H].
  destruct after; [| discriminate H]. inversion H; subst n.
  destruct (@match_braces_spec rest name EmptyString Hm) as [-> Hw]. auto.
Qed.

(** ** The scan of the template *)

Lemma search_literal : forall l s,
  brace_free l = true ->
  search (l ++ s)%string =
  match search s with
  | Some (before, name, after) => Some ((l ++ before)%string, name, after)
  | None => None
  end.
Proof.
  induction l as [| c l IH]; intros s Hl; simpl in *.
  - destruct (search s) as [[[b n] a] |]; reflexivity.
  - unfold brace_free in Hl. simpl in Hl. apply andb_prop in Hl as [Hc Hl].
    apply negb_true_iff in Hc. rewrite Hc, (IH s Hl).
    destruct (search s) as [[[b n] a] |]; reflexivity.
Qed.

Lemma search_placeholder : forall name s,
  word name = true ->
  search (String "{" (name ++ String "}" s))%string = Some (EmptyString, name, s).
Proof.
  intros name s H. simpl. now rewrite (@match_braces_word name s H).
Qed.

Lemma search_shorter : forall s before name after,
  search s = Some (before, name, after) ->
  String.length after < String.length s.
Proof.
  induction s as [| c s IH]; intros before name after H; simpl in H.
  - discriminate H.
  - destruct (if Ascii.eqb c "{" then match_braces s else None)
      as [[n a] |] eqn:Hm.
    + inversion H; subst. destruct (Ascii.eqb c "{"); [| discriminate Hm].
      destruct (@match_braces_spec s name after Hm) as [-> _].
      cbn [String.length]. rewrite str_length_app. cbn [String.length]. lia.
    + destruct (search s) as [[[b n] a] |] eqn:Hs; [| discriminate H].
      inversion H; subst. specialize (IH b name after eq_refl). simpl. lia.
Qed.

(** The fuel of [finditer_from] does not matter once it covers the text. *)
Lemma finditer_fuel : forall fuel1 fuel2 s,
  String.length s <= fuel1 ->
  String.length s <= fuel2 ->
  finditer_from fuel1 s = finditer_from fuel2 s.
Proof.
  induction fuel1 as [| fuel1 IH]; intros fuel2 s H1 H2.
  - destruct s; [| simpl in H1; lia]. destruct fuel2; reflexivity.
  - destruct fuel2 as [| fuel2].
    + destruct s; [reflexivity | simpl in H2; lia].
    + simpl. destruct (search s) as [[[b n] a] |] eqn:Hs; [| reflexivity].
      apply search_shorter in Hs. f_equal. f_equal. apply IH; lia.
Qed.

(** The loop over the matches, as an equation. *)
Lemma finditer_unfold : forall s,
  tokens s =
  match search s with
  | Some (before, name, after) =>
      Escaped before :: NamedGroup name :: tokens after
  | None => [Escaped s]
  end.
Proof.
  intros s. unfold tokens.
  destruct (search s) as [[[b n] a] |] eqn:Hs.
  - pose proof (@search_shorter s b n a Hs) as Hlt.
    destruct (String.length s) as [| len] eqn:Hlen; [lia |].
    simpl. rewrite Hs. f_equal. f_equal. apply finditer_fuel; lia.
  - destruct (String.length s); simpl; [| rewrite Hs]; reflexivity.
Qed.

Lemma tokens_literal : forall l s,
  brace_free l = true -> tokens (l ++ s)%string = prepend l (tokens s).
Proof.
  intros l s Hl. rewrite (finditer_unfold (l ++ s)), (finditer_unfold s).
  rewrite (@search_literal l s Hl).
  destruct (search s) as [[[b n] a] |]; reflexivity.
Qed.

Lemma tokens_placeholder : forall name s,
  word name = true ->
  tokens (String "{" (name ++ String "}" s))%string
  = Escaped EmptyString :: NamedGroup name :: tokens s.
Proof.
  intros name s H. rewrite finditer_unfold.
  now rewrite (@search_placeholder name s H).
Qed.

Lemma tokens_head : forall s, exists b parts, tokens s = Escaped b :: parts.
Proof.
  intros s. rewrite finditer_unfold.
  destruct (search s) as [[[b n] a] |]; eauto.
Qed.

(** ** The text matched by a compiled template *)

Lemma fill_tokens_empty : forall values, fill (tokens EmptyString) values = EmptyString.
Proof. reflexivity. Qed.

Lemma fill_tokens_literal : forall l s values,
  brace_free l = true ->
  fill (tokens (l ++ s)%string) values = (l ++ fill (tokens s) values)%string.
Proof.
  intros l s values Hl. rewrite (@tokens_literal l s Hl).
  destruct (tokens_head s) as [b [parts ->]]. simpl. apply str_app_assoc.
Qed.

Lemma names_tokens_literal : forall l s,
  brace_free l = true ->
  group_names (tokens (l ++ s)%string) = group_names (tokens s).
Proof.
  intros l s Hl. rewrite (@tokens_literal l s Hl).
  destruct (tokens_head s) as [b [parts ->]]. reflexivity.
Qed.

(** One segment at the head of the text. *)
Lemma fill_tokens_segment : forall segment s values,
  plain_segment segment = true ->
  fill (tokens (segment ++ s)%string) values =
  match placeholder_name segment with
  | Some _ =>
      match values with
      | v :: values' => (v ++ fill (tokens s) values')%string
      | [] => fill (tokens s) []
      end
  | None => (segment ++ fill (tokens s) values)%string
  end.
Proof.
  intros segment s values H. unfold plain_segment in H.
  destruct (placeholder_name segment) as [name |] eqn:Hp.
  - destruct (@placeholder_name_spec segment name Hp) as [-> Hw].
    change (String "{" (name ++ "}") ++ s)%string
      with (String "{" ((name ++ "}") ++ s))%string.
    rewrite str_app_assoc.
    change ("}" ++ s)%string with (String "}" s).
    rewrite (@tokens_placeholder name s Hw).
    destruct values; reflexivity.
  - now apply fill_tokens_literal.
Qed.

Lemma names_tokens_segment : forall segment s,
  plain_segment segment = true ->
  group_names (tokens (segment ++ s)%string) =
  match placeholder_name segment with
  | Some name => name :: group_names (tokens s)
  | None => group_names (tokens s)
  end.
Proof.
  intros segment s H. unfold plain_segment in H.
  destruct (placeholder_name segment) as [name |] eqn:Hp.
  - destruct (@placeholder_name_spec segment name Hp) as [-> Hw].
    change (String "{" (name ++ "}") ++ s)%string
      with (String "{" ((name ++ "}") ++ s))%string.
    rewrite str_app_assoc.
    change ("}" ++ s)%string with (String "}" s).
    now rewrite (@tokens_placeholder name s Hw).
  - now apply names_tokens_literal.
Qed.

Lemma concat_cons : forall sep x y (ys : list string),
  String.concat sep (x :: y :: ys)
  = (x ++ sep ++ String.concat sep (y :: ys))%string.
Proof. reflexivity. Qed.

Lemma instantiate_cons : forall segment template values,
  exists x values',
    instantiate (segment :: template) values = x :: instantiate template values'.
Proof.
  intros segment template values. simpl.
  destruct (placeholder_name segment); [destruct values |]; eauto.
Qed.

(** The text matched by the pieces of a template of plain segments is the
    template itself, joined by slashes, with the captured values in the
    place of the placeholders. *)
Lemma fill_template : forall template values,
  forallb plain_segment template = true ->
  fill (tokens (String.concat "/" template)) values
  = String.concat "/" (instantiate template values).
Proof.
  induction template as [| segment template IH]; intros values H.
  - reflexivity.
  - simpl in H. apply andb_prop in H as [Hseg Htemplate].
    destruct template as [| segment2 template].
    + change (String.concat "/" [segment]) with segment.
      rewrite <- (str_app_nil_r segment) at 1.
      rewrite (@fill_tokens_segment segment "" values Hseg). simpl.
      destruct (placeholder_name segment).
      * destruct values; simpl; [reflexivity | apply str_app_nil_r].
      * simpl. apply str_app_nil_r.
    + rewrite concat_cons.
      rewrite (@fill_tokens_segment segment _ values Hseg).
      remember (segment2 :: template) as rest eqn:Erest.
      assert (Hrest : forall vs,
                fill (tokens ("/" ++ String.concat "/" rest)%string) vs
                = ("/" ++ String.concat "/" (instantiate rest vs))%string).
      { intros vs. rewrite (@fill_tokens_literal "/" _ vs eq_refl).
        now rewrite (IH vs Htemplate). }
      assert (Hcons : forall x vs,
                String.concat "/" (x :: instantiate rest vs)
                = (x ++ "/" ++ String.concat "/" (instantiate rest vs))%string).
      { intros x vs. subst rest.
        destruct (instantiate_cons segment2 template vs) as [y [vs' ->]].
        reflexivity. }
      cbn [instantiate].
      destruct (placeholder_name segment);
        [destruct values as [| v values] |]; rewrite Hrest, Hcons; reflexivity.
Qed.

Lemma names_template : forall template,
  forallb plain_segment template = true ->
  group_names (tokens (String.concat "/" template)) = placeholder_names template.
Proof.
  induction template as [| segment template IH]; intros H.
  - reflexivity.
  - simpl in H. apply andb_prop in H as [Hseg Htemplate].
    destruct template as [| segment2 template].
    + change (String.concat "/" [segment]) with segment.
      rewrite <- (str_app_nil_r segment) at 1.
      rewrite (@names_tokens_segment segment "" Hseg). simpl.
      destruct (placeholder_name segment); reflexivity.
    + rewrite concat_cons.
      rewrite (@names_tokens_segment segment _ Hseg).
      rewrite (@names_tokens_literal "/" _ eq_refl), (IH Htemplate).
      cbn [placeholder_names]. destruct (placeholder_name segment); reflexivity.
Qed.

(** ** Soundness of the match *)

Lemma longest_first_some : forall (A : Type) (f : nat -> option A) k r,
  longest_first f k = Some r -> exists j, 1 <= j <= k /\ f j = Some r.
Proof.
  induction k as [| k IH]; intros r H; simpl in H.
  - discriminate H.
  - destruct (f (S k)) as [r' |] eqn:Hf.
    + inversion H; subst. exists (S k). split; [lia | exact Hf].
    + destruct (IH r H) as [j [Hj Hfj]]. exists j. split; [lia | exact Hfj].
Qed.

Lemma str_take_drop : forall k s, (str_take k s ++ str_drop k s)%string = s.
Proof.
  induction k as [| k IH]; intros s; simpl.
  - reflexivity.
  - destruct s as [| c s]; simpl; [| rewrite IH]; reflexivity.
Qed.

Lemma str_take_run : forall s k,
  k <= String.length (fst (span_word s)) ->
  all_chars is_word (str_take k s) = true.
Proof.
  induction s as [| c s IH]; intros k Hk.
  - destruct k; reflexivity.
  - destruct k as [| k]; [reflexivity |]. simpl in Hk |- *.
    destruct (is_word c) eqn:Hc.
    + destruct (span_word s) as [w r] eqn:Hs. simpl in Hk |- *.
      apply IH. simpl. lia.
    + simpl in Hk. lia.
Qed.

Lemma str_take_word : forall s k,
  1 <= k <= String.length (fst (span_word s)) ->
  word (str_take k s) = true.
Proof.
  intros s k [H1 Hk]. unfold word.
  rewrite (@str_take_run s k Hk), andb_true_r.
  destruct k as [| k]; [lia |].
  destruct s as [| c s]; [simpl in Hk; lia | reflexivity].
Qed.

Lemma strip_prefix_spec : forall l s s',
  strip_prefix l s = Some s' -> s = (l ++ s')%string.
Proof.
  induction l as [| c l IH]; intros s s' H; simpl in H.
  - now inversion H.
  - destruct s as [| d s]; [discriminate H |].
    destruct (Ascii.eqb c d) eqn:Hcd; [| discriminate H].
    apply Ascii.eqb_eq in Hcd; subst d. simpl. f_equal. now apply IH.
Qed.

Lemma end_of_text : forall s x tail,
  s = EmptyString \/ s = newline ->
  s = (x ++ tail)%string ->
  tail = EmptyString \/ tail = newline.
Proof.
  intros s x tail [-> | ->] H.
  - destruct x; [left; now symmetry | discriminate H].
  - destruct x as [| c x]; simpl in H.
    + right. now symmetry.
    + unfold newline in H. inversion H as [[Hc Hx]].
      destruct x; [left; now symmetry | discriminate Hx].
Qed.

Lemma match_parts_sound : forall parts pos s groups,
  match_parts parts pos s = Some groups ->
  exists tail,
    s = (fill parts (map snd groups) ++ tail)%string
    /\ map fst groups = group_names parts
    /\ Forall (fun v => word v = true) (map snd groups)
    /\ (In Dollar parts -> tail = EmptyString \/ tail = newline).
Proof.
  induction parts as [| part parts IH]; intros pos s groups H.
  - simpl in H. inversion H; subst. exists s.
    repeat split; [constructor | intros []].
  - destruct part as [| l | name |]; simpl in H.
    + destruct (pos =? 0)%nat; [| discriminate H].
      destruct (IH pos s groups H) as [tail [Hs [Hn [Hw Hend]]]].
      exists tail. repeat split; try assumption.
      intros [Hd | Hd]; [discriminate Hd | now apply Hend].
    + destruct (strip_prefix l s) as [s' |] eqn:Hl; [| discriminate H].
      apply strip_prefix_spec in Hl.
      destruct (IH _ s' groups H) as [tail [Hs [Hn [Hw Hend]]]].
      exists tail. repeat split; try assumption.
      * simpl. rewrite str_app_assoc, <- Hs. exact Hl.
      * intros [Hd | Hd]; [discriminate Hd | now apply Hend].
    + apply longest_first_some in H as [j [Hj Hf]].
      destruct (match_parts parts (pos + j) (str_drop j s)) as [groups' |] eqn:Hm;
        [| discriminate Hf].
      inversion Hf; subst groups.
      destruct (IH _ _ groups' Hm) as [tail [Hs [Hn [Hw Hend]]]].
      exists tail. repeat split.
      * simpl. rewrite str_app_assoc, <- Hs. symmetry. apply str_take_drop.
      * simpl. now rewrite Hn.
      * simpl. constructor; [now apply str_take_word | exact Hw].
      * intros [Hd | Hd]; [discriminate Hd | now apply Hend].
    + destruct (String.eqb s EmptyString || String.eqb s newline) eqn:He;
        [| discriminate H].
      destruct (IH pos s groups H) as [tail [Hs [Hn [Hw _]]]].
      exists tail. repeat split; try assumption.
      intros _. apply (@end_of_text s (fill parts (map snd groups)) tail);
        [| exact Hs].
      apply orb_prop in He as [He | He]; apply String.eqb_eq in He; auto.
Qed.

Lemma fill_app_dollar : forall parts values,
  fill (parts ++ [Dollar]) values = fill parts values.
Proof.
  induction parts as [| part parts IH]; intros values; simpl.
  - reflexivity.
  - destruct part; try apply IH.
    + now rewrite IH.
    + destruct values; now rewrite IH.
Qed.

Lemma group_names_app_dollar : forall parts,
  group_names (parts ++ [Dollar]) = group_names parts.
Proof.
  induction parts as [| part parts IH]; simpl.
  - reflexivity.
  - destruct part; try apply IH. now rewrite IH.
Qed.

(** What a match of a compiled template says about the path, for a template
    of plain segments: the path is the template with each placeholder
    replaced by its captured value, a non-empty run of word characters, and
    nothing more than one newline can follow. *)
Lemma captured_values_fill_template : forall template text groups,
  forallb plain_segment template = true ->
  re_match (compile_route_regex template) text = Ok (Some groups) ->
  exists tail,
    (tail = EmptyString \/ tail = newline)
    /\ text = (String.concat "/" (instantiate template (map snd groups))
               ++ tail)%string
    /\ map fst groups = placeholder_names template
    /\ Forall (fun v => word v = true) (map snd groups).
Proof.
  intros template text groups Hplain H. unfold re_match in H.
  destruct (forallb identifier (group_names (compile_route_regex template))
            && distinct (group_names (compile_route_regex template)));
    [| discriminate H].
  injection H as Hm.
  change (match_parts
            (tokens (String.concat "/" template) ++ [Dollar]) 0 text
          = Some groups) in Hm.
  destruct (match_parts_sound _ _ _ Hm) as [tail [Hs [Hn [Hw Hend]]]].
  rewrite fill_app_dollar,
    (@fill_template template (map snd groups) Hplain) in Hs.
  rewrite group_names_app_dollar, (@names_template template Hplain) in Hn.
  exists tail. repeat split; try assumption.
  apply Hend. apply in_or_app. right. now left.
Qed.

Lemma captured_word_has_no_slash : forall v,
  word v = true -> split_slash v = [v] /\ v <> EmptyString.
Proof.
  intros v H. unfold word in H. apply andb_prop in H as [Hne Hw].
  split; [| destruct v; [discriminate Hne | discriminate]].
  clear Hne. induction v as [| c v IH]; [reflexivity |].
  simpl in Hw. apply andb_prop in Hw as [Hc Hw]. simpl.
  destruct (Ascii.eqb c "/") eqn:Hslash.
  - apply Ascii.eqb_eq in Hslash; subst c. discriminate Hc.
  - now rewrite (IH Hw).
Qed.

(** C8 at a failing input: the path [/abc] followed by a newline matches
    the pattern compiled for [/{item_id}], because [$] also matches before a
    final newline; the captured value is [abc], while the text of the path
    segment is [abc] with the newline, and the handler is called with
    [abc]. *)
Theorem trailing_newline_is_matched :
  re_match (compile_route_regex [""; "{item_id}"]) ("/abc" ++ newline)%string
  = Ok (Some [("item_id", "abc")])
  /\ split_slash ("/abc" ++ newline)%string = [""; ("abc" ++ newline)%string]
  /\ "abc" <> ("abc" ++ newline)%string
  /\ serve_path item_sitemap "" ("/abc" ++ newline)%string
     = TextResponse (VDict [("item_id", VStr "abc")]).
Proof.
  split; [reflexivity |].
  split; [reflexivity |].
  split; [discriminate | reflexivity].
Qed.

(** A brace pair inside a key is compiled to a group as well, and then the
    captured value is only a part of the path segment. *)
Lemma embedded_group_captures_part :
  re_match (compile_route_regex [""; "x{id}"]) "/x12" = Ok (Some [("id", "12")]).
Proof. reflexivity. Qed.

(** ** The generator of web.py *)

(** In web.py a sibling does not change the template of the next entry. *)
Lemma web_siblings_independent :
  map fst (fst (Web.generate_sitemap flat_sitemap (Some (Web.Str ""))))
  = [[Web.Str ""; Web.Str "a"]; [Web.Str ""; Web.Str ""]].
Proof. reflexivity. Qed.

(** In web.py the prefix of a nested mapping is wrapped in a list again, and
    the template of a nested callable does not compile. *)
Lemma web_nested_template_fails :
  map fst (fst (Web.generate_sitemap docstring_sitemap (Some (Web.Str ""))))
  = [[Web.Lst [Web.Str ""; Web.Str "string_literal"]; Web.Str ""];
     [Web.Lst [Web.Str ""; Web.Str "string_literal"]; Web.Str "{arg}"]]
  /\ Web.serve_routes docstring_sitemap
     = Raise (TypeError "sequence item: expected str instance, list found").
Proof. split; reflexivity. Qed.

(** * Further properties of the code *)

(** ** What the generator yields *)

Lemma gen_then_in : forall g1 g2 r,
  In r (fst (gen_then g1 g2)) -> In r (fst g1) \/ In r (fst g2).
Proof.
  intros [r1 [e1 |]] [r2 e2] r; unfold gen_then; simpl; intros H.
  - now left.
  - now apply in_app_or.
Qed.

Lemma generate_from_extends : forall n prefix r,
  In r (fst (generate_from n prefix)) ->
  exists suffix, fst r = prefix ++ suffix.
Proof.
  induction n as [items IH | h | t] using node_induction; intros prefix r H;
    [| contradiction | contradiction].
  change (generate_from (Branch items) prefix)
    with (generate_items items prefix) in H.
  revert prefix H.
  induction IH as [| [k sub] rest Hsub _ IHrest]; intros prefix H.
  - contradiction.
  - rewrite generate_items_cons in H.
    destruct sub as [sub_items | h | t].
    + apply gen_then_in in H as [H | H].
      * destruct (Hsub (prefix ++ [k]) r H) as [suffix ->].
        exists ([k] ++ suffix). now rewrite app_assoc.
      * now apply IHrest.
    + cbv zeta in H. destruct H as [<- | H].
      * simpl. destruct (nonempty k); [now exists [k] |].
        exists []. now rewrite app_nil_r.
      * destruct (nonempty k).
        -- destruct (IHrest _ H) as [suffix ->].
           exists ([k] ++ suffix). now rewrite app_assoc.
        -- now apply IHrest.
    + contradiction.
Qed.

(** X1: every route that [generate_sitemap] yields, also one whose segments
    were lengthened by an earlier sibling and also when the generator ends
    with an exception, has the prefix as its first segment; the element that
    [get_route_response] skips at the head of a template is therefore always
    the prefix and never a key of the sitemap. *)
Theorem routes_begin_with_prefix : forall sitemap prefix segments h,
  In (segments, h) (fst (generate_sitemap sitemap (Some [prefix]))) ->
  exists keys, segments = prefix :: keys.
Proof.
  intros sitemap prefix segments h H. unfold generate_sitemap in H.
  destruct (@generate_from_extends sitemap [prefix] (segments, h) H)
    as [suffix Hs].
  now exists suffix.
Qed.

Lemma routes_begin_with_prefix_witness :
  In ([""; "shop"; "a"], index_handler)
     (fst (generate_sitemap sibling_sitemap (Some [""])))
  /\ exists keys, [""; "shop"; "a"] = "" :: keys.
Proof.
  assert (H : In ([""; "shop"; "a"], index_handler)
                 (fst (generate_sitemap sibling_sitemap (Some [""]))))
    by (simpl; right; left; reflexivity).
  split; [exact H |].
  exact (@routes_begin_with_prefix sibling_sitemap "" _ _ H).
Defined.




(** ** Completeness of the match *)

Lemma longest_first_ext : forall (A : Type) (f g : nat -> option A) k,
  (forall j, f j = g j) -> longest_first f k = longest_first g k.
Proof.
  induction k as [| k IH]; intros H; simpl; [reflexivity |].
  rewrite H. destruct (g (S k)); [reflexivity | now apply IH].
Qed.

(** Without [^] a pattern matches alike at every position. *)
Lemma match_parts_pos : forall parts p q s,
  caret_free parts = true -> match_parts parts p s = match_parts parts q s.
Proof.
  induction parts as [| part parts IH]; intros p q s H; [reflexivity |].
  simpl in H. apply andb_prop in H as [Hpart H].
  destruct part as [| l | name |]; simpl.
  - discriminate Hpart.
  - destruct (strip_prefix l s); [now apply IH | reflexivity].
  - apply longest_first_ext. intros j.
    now rewrite (IH (p + j) (q + j) (str_drop j s) H).
  - destruct (String.eqb s EmptyString || String.eqb s newline);
      [now apply IH | reflexivity].
Qed.

Lemma finditer_caret_free : forall fuel s,
  caret_free (finditer_from fuel s) = true.
Proof.
  induction fuel as [| fuel IH]; intros s; simpl; [reflexivity |].
  destruct (search s) as [[[b n] a] |]; [| reflexivity].
  simpl. apply IH.
Qed.

Lemma tokens_dollar_caret_free : forall s,
  caret_free (tokens s ++ [Dollar]) = true.
Proof.
  intros s. unfold caret_free. rewrite forallb_app.
  fold (caret_free (tokens s)). unfold tokens.
  now rewrite finditer_caret_free.
Qed.

Lemma strip_prefix_app : forall l b s,
  strip_prefix (l ++ b)%string (l ++ s)%string = strip_prefix b s.
Proof.
  induction l as [| c l IH]; intros b s; simpl; [reflexivity |].
  now rewrite Ascii.eqb_refl.
Qed.

Lemma strip_prefix_self : forall s, strip_prefix s s = Some EmptyString.
Proof.
  induction s as [| c s IH]; simpl; [reflexivity |].
  now rewrite Ascii.eqb_refl.
Qed.

Lemma span_word_value : forall v text,
  all_chars is_word v = true ->
  stops text = true ->
  span_word (v ++ text)%string = (v, text).
Proof.
  intros v text Hv Hs. destruct text as [| c text].
  - rewrite str_app_nil_r. clear Hs.
    induction v as [| x v IH]; [reflexivity |].
    simpl in Hv |- *. apply andb_prop in Hv as [Hx Hv].
    now rewrite Hx, (IH Hv).
  - simpl in Hs. apply negb_true_iff in Hs.
    now apply span_word_stop.
Qed.

Lemma str_take_app : forall v s, str_take (String.length v) (v ++ s)%string = v.
Proof. induction v as [| c v IH]; intros s; simpl; [now destruct s | now rewrite IH]. Qed.

Lemma str_drop_app : forall v s, str_drop (String.length v) (v ++ s)%string = s.
Proof. induction v as [| c v IH]; intros s; simpl; [reflexivity | apply IH]. Qed.

(** A literal at the head of the template consumes itself. *)
Lemma match_literal_head : forall l s pos text,
  brace_free l = true ->
  match_parts (tokens (l ++ s)%string ++ [Dollar]) pos (l ++ text)%string
  = match_parts (tokens s ++ [Dollar]) pos text.
Proof.
  intros l s pos text Hl. rewrite (@tokens_literal l s Hl).
  pose proof (tokens_dollar_caret_free s) as Hfree.
  destruct (tokens_head s) as [b [parts Heq]]. rewrite Heq in *.
  simpl in Hfree |- *. rewrite strip_prefix_app.
  destruct (strip_prefix b text); [| reflexivity].
  now apply match_parts_pos.
Qed.

(** A placeholder at the head of the template captures a word that is
    followed by no word character. *)
Lemma match_placeholder_head : forall name s pos v text groups,
  word name = true ->
  word v = true ->
  stops text = true ->
  (forall p, match_parts (tokens s ++ [Dollar]) p text = Some groups) ->
  match_parts (tokens (String "{" (name ++ String "}" s))%string ++ [Dollar])
              pos (v ++ text)%string
  = Some ((name, v) :: groups).
Proof.
  intros name s pos v text groups Hname Hv Hstop Hrest.
  rewrite (@tokens_placeholder name s Hname).
  unfold word in Hv. apply andb_prop in Hv as [Hne Hw].
  cbn [app match_parts strip_prefix].
  rewrite (@span_word_value v text Hw Hstop). cbn [fst].
  destruct (String.length v) as [| k] eqn:Hlen;
    [destruct v; [discriminate Hne | discriminate Hlen] |].
  cbn [longest_first]. rewrite <- Hlen.
  now rewrite str_drop_app, str_take_app, Hrest.
Qed.

Lemma stops_tail : forall tail,
  tail = EmptyString \/ tail = newline -> stops tail = true.
Proof. intros tail [-> | ->]; reflexivity. Qed.

Lemma match_end : forall pos tail,
  tail = EmptyString \/ tail = newline ->
  match_parts (tokens EmptyString ++ [Dollar]) pos tail = Some [].
Proof. intros pos tail [-> | ->]; reflexivity. Qed.

Lemma placeholder_names_single : forall segment name,
  placeholder_name segment = Some name ->
  forall template, placeholder_names (segment :: template)
                   = name :: placeholder_names template.
Proof. intros segment name H template. simpl. now rewrite H. Qed.

(** The path made from a template of plain segments and from words for its
    placeholders matches the compiled pattern, with or without a final
    newline, and the groups are those words. *)
Lemma match_template : forall template values tail pos,
  forallb plain_segment template = true ->
  Forall (fun v => word v = true) values ->
  length values = length (placeholder_names template) ->
  tail = EmptyString \/ tail = newline ->
  match_parts (tokens (String.concat "/" template) ++ [Dollar]) pos
              (String.concat "/" (instantiate template values) ++ tail)%string
  = Some (combine (placeholder_names template) values).
Proof.
  induction template as [| segment template IH];
    intros values tail pos Hplain Hwords Hlen Htail.
  - destruct values; [| discriminate Hlen]. now apply match_end.
  - simpl in Hplain. apply andb_prop in Hplain as [Hseg Hplain].
    pose proof Hseg as Hseg'. unfold plain_segment in Hseg'.
    destruct template as [| segment2 template].
    + change (String.concat "/" [segment]) with segment.
      cbn [instantiate placeholder_names] in *.
      destruct (placeholder_name segment) as [name |] eqn:Hp.
      * destruct (@placeholder_name_spec segment name Hp) as [-> Hname].
        destruct values as [| v [| v' values]]; try discriminate Hlen.
        inversion Hwords as [| ? ? Hv _]; subst.
        change (String.concat "/" [v]) with v.
        change (String "{" (name ++ "}"))%string
          with (String "{" (name ++ String "}" EmptyString))%string.
        apply match_placeholder_head;
          [exact Hname | exact Hv | now apply stops_tail |].
        intros p. now apply match_end.
      * destruct values; [| discriminate Hlen].
        change (String.concat "/" [segment]) with segment.
        rewrite <- (str_app_nil_r segment) at 1.
        rewrite (@match_literal_head segment "" pos tail Hseg').
        now apply match_end.
    + rewrite concat_cons.
      remember (segment2 :: template) as rest eqn:Erest.
      assert (Hcons : forall x vs,
                String.concat "/" (x :: instantiate rest vs)
                = (x ++ "/" ++ String.concat "/" (instantiate rest vs))%string).
      { intros x vs. subst rest.
        destruct (instantiate_cons segment2 template vs) as [y [vs' ->]].
        reflexivity. }
      assert (Hrest : forall vs p,
                Forall (fun v => word v = true) vs ->
                length vs = length (placeholder_names rest) ->
                match_parts (tokens ("/" ++ String.concat "/" rest)%string
                             ++ [Dollar]) p
                  ("/" ++ (String.concat "/" (instantiate rest vs) ++ tail))%string
                = Some (combine (placeholder_names rest) vs)).
      { intros vs p Hvs Hl.
        rewrite (@match_literal_head "/" _ p _ eq_refl).
        now apply IH. }
      cbn [instantiate placeholder_names] in *.
      destruct (placeholder_name segment) as [name |] eqn:Hp.
      * destruct (@placeholder_name_spec segment name Hp) as [-> Hname].
        destruct values as [| v values]; [discriminate Hlen |].
        inversion Hwords as [| ? ? Hv Hvs]; subst x l.
        injection Hlen as Hlen.
        rewrite Hcons, !str_app_assoc.
        change (String "{" (name ++ "}") ++ "/" ++ String.concat "/" rest)%string
          with (String "{" ((name ++ "}") ++ "/" ++ String.concat "/" rest))%string.
        rewrite str_app_assoc.
        change ("}" ++ "/" ++ String.concat "/" rest)%string
          with (String "}" ("/" ++ String.concat "/" rest))%string.
        cbn [combine].
        apply match_placeholder_head; [exact Hname | exact Hv | reflexivity |].
        intros p. now apply Hrest.
      * rewrite Hcons, !str_app_assoc.
        rewrite (@match_literal_head segment _ pos _ Hseg').
        now apply Hrest.
Qed.

Lemma combine_fst_snd : forall (A B : Type) (l : list (A * B)),
  combine (map fst l) (map snd l) = l.
Proof.
  induction l as [| [a b] l IH]; simpl; [| rewrite IH]; reflexivity.
Qed.

(** [re.match] on the pattern of a template of plain segments: the pattern
    compiles when the placeholder names do. *)
Lemma re_match_compile : forall template text,
  forallb plain_segment template = true ->
  re_match (compile_route_regex template) text
  = if valid_names (placeholder_names template)
    then Ok (match_parts (tokens (String.concat "/" template) ++ [Dollar]) 0 text)
    else Raise (re_error "bad or redefined group name").
Proof.
  intros template text Hplain. unfold re_match, compile_route_regex.
  fold (tokens (String.concat "/" template)).
  cbn [group_names]. rewrite group_names_app_dollar.
  rewrite (@names_template template Hplain). fold (valid_names (placeholder_names template)).
  destruct (valid_names (placeholder_names template)); reflexivity.
Qed.

(** X3: for a template of plain segments (placeholders [{name}] and literals
    without an opening brace) whose placeholder names are distinct
    identifiers, and for a path of ASCII characters, [re.match] on the
    compiled pattern succeeds on exactly the paths that are the template
    with a non-empty run of word characters in the place of each
    placeholder, optionally followed by one newline; the group dictionary
    then holds those runs under the placeholder names, in order.  Compiling
    and matching invert the substitution of values into the template.  (On
    a path with characters outside ASCII the word class of [re] is wider
    than [is_word], and nothing is stated.) *)
Theorem match_characterised : forall template text groups,
  forallb plain_segment template = true ->
  valid_names (placeholder_names template) = true ->
  ascii_text text = true ->
  re_match (compile_route_regex template) text = Ok (Some groups)
  <-> (map fst groups = placeholder_names template
       /\ Forall (fun v => word v = true) (map snd groups)
       /\ exists tail,
            (tail = EmptyString \/ tail = newline)
            /\ text = (String.concat "/" (instantiate template (map snd groups))
                       ++ tail)%string).
Proof.
  intros template text groups Hplain Hvalid _. split.
  - intros H.
    destruct (@captured_values_fill_template template text groups Hplain H)
      as [tail [Htail [Htext [Hnames Hwords]]]].
    repeat split; try assumption. now exists tail.
  - intros [Hnames [Hwords [tail [Htail ->]]]].
    rewrite (@re_match_compile template _ Hplain), Hvalid.
    rewrite (@match_template template (map snd groups) tail 0 Hplain Hwords);
      [| now rewrite <- Hnames, !length_map | exact Htail].
    now rewrite <- Hnames, combine_fst_snd.
Qed.

Lemma match_characterised_witness :
  re_match (compile_route_regex
              [""; "publisher"; "{publisher_id}"; "author"; "{author_id}"])
           "/publisher/42/author/7"
  = Ok (Some [("publisher_id", "42"); ("author_id", "7")]).
Proof.
  apply (proj2 (@match_characterised
                  [""; "publisher"; "{publisher_id}"; "author"; "{author_id}"]
                  "/publisher/42/author/7"
                  [("publisher_id", "42"); ("author_id", "7")]
                  eq_refl eq_refl eq_refl)).
  split; [reflexivity |].
  split; [repeat constructor |].
  exists EmptyString. split; [now left | reflexivity].
Defined.

(** X4: a template of plain segments that names a placeholder twice, or
    whose placeholder name starts with a digit, compiles to a pattern that
    [re.match] refuses: every request that reaches its route in the table,
    whatever its path, ends with the uncaught [re.error], before any
    controller runs and before the routes declared after it are tried. *)
Theorem bad_names_break_dispatch :
  forall template controller (before after : list route) env,
    forallb plain_segment template = true ->
    valid_names (placeholder_names template) = false ->
    Forall (fun r : route => re_match (fst r) (path_info env) = Ok None) before ->
    Tawdry_call (before ++ (compile_route_regex template, controller) :: after)
                env
    = Uncaught (re_error "bad or redefined group name").
Proof.
  intros template controller before after env Hplain Hbad Hbefore.
  rewrite (Tawdry_call_skip _ _ Hbefore). simpl.
  now rewrite (@re_match_compile template _ Hplain), Hbad.
Qed.

Lemma bad_names_break_dispatch_witness :
  Tawdry_call
    ([] ++ (compile_route_regex [""; "{id}"; "part"; "{id}"],
            make_route_response main_sitemap [""; "{id}"; "part"; "{id}"] author)
        :: [])
    (request_for "/nowhere")
  = Uncaught (re_error "bad or redefined group name").
Proof.
  apply (@bad_names_break_dispatch [""; "{id}"; "part"; "{id}"]); try reflexivity.
  constructor.
Defined.

(** ** Serving *)

Lemma brace_free_no_placeholder : forall s,
  brace_free s = true -> placeholder_name s = None.
Proof.
  intros [| c s] H; [reflexivity |].
  unfold brace_free in H. simpl in H. apply andb_prop in H as [Hc _].
  apply negb_true_iff in Hc. simpl. now rewrite Hc.
Qed.

Lemma brace_free_plain : forall s, brace_free s = true -> plain_segment s = true.
Proof.
  intros s H. unfold plain_segment.
  now rewrite (brace_free_no_placeholder s H).
Qed.

Lemma placeholder_name_word : forall name,
  word name = true ->
  placeholder_name (String "{" (name ++ "}"))%string = Some name.
Proof.
  intros name H. simpl.
  change (name ++ "}")%string with (name ++ String "}" EmptyString)%string.
  now rewrite (@match_braces_word name EmptyString H).
Qed.

(** The table of a valid declaration: the routes of the generator, in
    order. *)
Lemma Tawdry_init_valid : forall items prefix,
  has_invalid (Branch items) = false ->
  Tawdry_init (Branch items) prefix
  = Ok (map (fun r : list string * handler =>
               (compile_route_regex (fst r),
                make_route_response (Branch items) (fst r) (snd r)))
            (fst (generate_items items [prefix]))).
Proof.
  intros items prefix Hvalid. unfold Tawdry_init, generate_sitemap.
  pose proof (generate_from_raised (Branch items) [prefix]) as Hr.
  cbn beta iota in Hr. rewrite Hvalid in Hr. now rewrite Hr.
Qed.

(** X5: an index handler declared first at the root of a valid sitemap is
    never run.  Its template is the prefix alone; the path equal to the
    prefix (free of braces) matches its pattern, but the walk skips the
    prefix, has no segment left, invokes nothing, and [return response]
    raises [UnboundLocalError], which leaves the application uncaught. *)
Theorem root_index_never_served : forall prefix h rest,
  brace_free prefix = true ->
  has_invalid (Branch rest) = false ->
  serve_path (Branch (("", Leaf h) :: rest)) prefix prefix
  = Uncaught (UnboundLocalError "response").
Proof.
  intros prefix h rest Hprefix Hvalid. unfold serve_path.
  rewrite Tawdry_init_valid by exact Hvalid.
  rewrite generate_items_cons. cbv zeta.
  cbn [nonempty gen_yield fst snd map Tawdry_call path_info].
  rewrite re_match_compile
    by (cbn [forallb]; now rewrite (brace_free_plain prefix Hprefix)).
  cbn [placeholder_names]. rewrite (brace_free_no_placeholder prefix Hprefix).
  cbn [valid_names forallb distinct andb placeholder_names].
  pose proof (@match_template [prefix] [] EmptyString 0) as Hm.
  cbn [forallb instantiate placeholder_names] in Hm.
  rewrite (brace_free_no_placeholder prefix Hprefix) in Hm.
  rewrite (brace_free_plain prefix Hprefix) in Hm.
  change (String.concat "/" [prefix]) with prefix in Hm.
  rewrite str_app_nil_r in Hm.
  change (String.concat "/" [prefix]) with prefix.
  rewrite Hm; [reflexivity | reflexivity | constructor | reflexivity | now left].
Qed.

Lemma root_index_never_served_witness :
  serve_path (Branch [("", Leaf index_handler);
                      ("{item_id}", Leaf show_item)]) "" ""
  = Uncaught (UnboundLocalError "response").
Proof.
  apply (@root_index_never_served "" index_handler
           [("{item_id}", Leaf show_item)]); reflexivity.
Defined.

(** X6: when a handler invoked during the walk raises an [HTTPException],
    [get_route_response] stops there: the controller answers with that
    error, whatever segments of the template are left, whether or not a
    placeholder was bound, and whatever return annotation the callable of
    the route has. *)
Theorem http_error_becomes_response :
  forall sitemap prefix pre segment post callable env st ctx kw h args status,
    walk env (initial sitemap) pre = Ok st ->
    bind_segment env st segment = Ok (ctx, kw) ->
    callable_at (sitemap_context st) segment = Some (Leaf h) ->
    map_params (h_params h) ctx = Ok args ->
    call h env args = Raise (HTTPException status) ->
    make_route_response sitemap (prefix :: pre ++ segment :: post) callable env
    = HTTPErrorResponse status.
Proof.
  intros sitemap prefix pre segment post callable env st ctx kw h args status
         Hpre Hb Hc Hm Hcall.
  assert (Hstep : step env st segment = Raise (HTTPException status)).
  { destruct (step_at_callable env st segment Hc Hb) as [child ->].
    unfold invoke. cbn [get_parameter_mappings bind]. rewrite Hm.
    cbn [bind]. now rewrite Hcall. }
  unfold make_route_response.
  now rewrite (@get_route_response_raise sitemap prefix pre segment post env st
                 _ Hpre Hstep).
Qed.

Lemma http_error_becomes_response_witness :
  make_route_response gone_sitemap
    ("" :: ["publisher"] ++ "{publisher_id}" :: ["author"; "{author_id}"])
    author
    {| path_info := "/publisher/42/author/7";
       urlvars := [("publisher_id", "42"); ("author_id", "7")] |}
  = HTTPErrorResponse 410.
Proof.
  refine (@http_error_becomes_response gone_sitemap "" ["publisher"]
            "{publisher_id}" ["author"; "{author_id}"] author
            {| path_info := "/publisher/42/author/7";
               urlvars := [("publisher_id", "42"); ("author_id", "7")] |}
            _ [("publisher_id", VStr "42")] (Some "publisher_id") gone
            [("publisher_id", VStr "42")] 410 _ _ _ _ _); reflexivity.
Defined.

(** ** Where the walk stands *)

Lemma step_descends : forall req st segment st',
  step req st segment = Ok st' ->
  getitem (sitemap_context st) segment = Ok (sitemap_context st').
Proof.
  intros req st segment st' H. unfold step in H.
  destruct (bind_segment req st segment) as [[ctx kw] | e];
    cbn [bind fst snd] in H; [| discriminate H].
  destruct (getitem (sitemap_context st) segment) as [child | e];
    cbn [bind] in H; [| discriminate H].
  destruct (select_callable child segment) as [rc | e];
    cbn [bind] in H; [| discriminate H].
  destruct (truth rc).
  - destruct rc as [c |]; [| discriminate H].
    destruct (invoke req c ctx kw) as [called | e]; cbn [bind] in H;
      [| discriminate H].
    now inversion H.
  - now inversion H.
Qed.

Lemma walk_descends : forall req segments st st',
  walk req st segments = Ok st' ->
  node_at (sitemap_context st) segments = Some (sitemap_context st').
Proof.
  induction segments as [| s segments IH]; intros st st' H; simpl in H.
  - now inversion H.
  - apply bind_ok in H as [st1 [Hstep H]].
    apply step_descends in Hstep. simpl.
    destruct (sitemap_context st) as [items | h | t]; simpl in Hstep;
      try discriminate Hstep.
    destruct (dict_get items s) as [child |]; [| discriminate Hstep].
    inversion Hstep; subst child. now apply IH.
Qed.

(** X7: the position of the walk in the sitemap depends on the segments
    alone: after any number of iterations it stands at the node found by
    following the segments as keys, whatever the handlers invoked on the way
    have returned.  So [get_route_response] can return a value only for a
    template whose segments after the prefix are a path of keys of the
    sitemap. *)
Theorem walk_follows_keys : forall sitemap env,
  (forall segments st,
     walk env (initial sitemap) segments = Ok st ->
     node_at sitemap segments = Some (sitemap_context st))
  /\ (forall prefix segments v,
        get_route_response sitemap (prefix :: segments) env = Ok v ->
        exists n, node_at sitemap segments = Some n).
Proof.
  intros sitemap env. split.
  - intros segments st H. exact (walk_descends env segments (initial sitemap) H).
  - intros prefix segments v H. unfold get_route_response in H.
    apply bind_ok in H as [st [Hwalk _]].
    exists (sitemap_context st).
    exact (walk_descends env segments (initial sitemap) Hwalk).
Qed.

Lemma walk_follows_keys_witness :
  exists n,
    node_at main_sitemap ["publisher"; "{publisher_id}"] = Some n.
Proof.
  apply (proj2 (walk_follows_keys main_sitemap
                  {| path_info := "/publisher/42";
                     urlvars := [("publisher_id", "42")] |})
               "" ["publisher"; "{publisher_id}"]
               (VDict [("name", VStr "Mad Hat")])).
  reflexivity.
Defined.

(** ** The matcher and the walk agree on placeholders *)

Lemma substring_prefix : forall name rest,
  substring 0 (String.length name) (name ++ rest)%string = name.
Proof.
  induction name as [| c name IH]; intros rest; simpl.
  - now destruct rest.
  - now rewrite IH.
Qed.

Lemma strip_braces_placeholder : forall name,
  strip_braces (String "{" (name ++ "}"))%string = name.
Proof.
  intros name. unfold strip_braces. cbn [String.length].
  rewrite str_length_app. cbn [String.length].
  replace (S (String.length name + 1) - 2) with (String.length name) by lia.
  cbn [substring]. apply substring_prefix.
Qed.

Lemma endswith_brace_app : forall s, endswith_brace (s ++ "}")%string = true.
Proof.
  induction s as [| c s IH]; [reflexivity |].
  simpl. destruct (s ++ "}")%string eqn:E; [| exact IH].
  destruct s; discriminate E.
Qed.

Lemma is_placeholder_placeholder : forall name,
  is_placeholder (String "{" (name ++ "}"))%string = true.
Proof.
  intros name. unfold is_placeholder. cbn [startswith_brace andb].
  rewrite Ascii.eqb_refl.
  exact (endswith_brace_app (String "{" name)).
Qed.

(** On a plain segment the test of the walk and the scan of the compiler
    find the same placeholder. *)
Lemma plain_placeholder : forall segment,
  plain_segment segment = true ->
  is_placeholder segment = true ->
  placeholder_name segment = Some (strip_braces segment).
Proof.
  intros segment Hplain Hph. unfold plain_segment in Hplain.
  destruct (placeholder_name segment) as [name |] eqn:Hp.
  - destruct (@placeholder_name_spec segment name Hp) as [-> _].
    now rewrite strip_braces_placeholder.
  - destruct segment as [| c s]; [discriminate Hph |].
    unfold brace_free in Hplain. simpl in Hplain.
    apply andb_prop in Hplain as [Hc _]. apply negb_true_iff in Hc.
    unfold is_placeholder in Hph. simpl in Hph. rewrite Hc in Hph.
    discriminate Hph.
Qed.

Lemma placeholder_names_in : forall template segment name,
  In segment template ->
  placeholder_name segment = Some name ->
  In name (placeholder_names template).
Proof.
  induction template as [| s template IH]; intros segment name Hin Hp;
    [contradiction |].
  simpl. destruct Hin as [-> | Hin].
  - rewrite Hp. now left.
  - destruct (placeholder_name s); [right |]; now apply IH with segment.
Qed.

Lemma dict_get_in : forall (V : Type) (d : dict V) k,
  In k (map fst d) -> exists v, dict_get d k = Some v /\ In v (map snd d).
Proof.
  induction d as [| [k' v'] d IH]; intros k Hin; [contradiction |].
  simpl. destruct (String.eqb k' k) eqn:E.
  - exists v'. split; [reflexivity | now left].
  - destruct Hin as [Heq | Hin].
    + simpl in Heq. subst k'. now rewrite String.eqb_refl in E.
    + destruct (IH k Hin) as [v [Hv Hin']]. exists v. split; [exact Hv | now right].
Qed.

(** X8: after a match of the pattern of a template of plain segments, the
    walk finds in [urlvars] the value of every placeholder segment of the
    template: the lookup [request.urlvars[keyword]] cannot raise, and the
    value found becomes the entry of the context under the placeholder's
    name, which is then the name bound last.  When the path is made of
    ASCII characters, the value bound is a non-empty run of the word
    characters of ASCII. *)
Theorem placeholders_bound_after_match :
  forall template text groups env st segment,
    forallb plain_segment template = true ->
    re_match (compile_route_regex template) text = Ok (Some groups) ->
    In segment template ->
    is_placeholder segment = true ->
    exists raw,
      dict_get groups (strip_braces segment) = Some raw
      /\ (ascii_text text = true -> word raw = true)
      /\ bind_segment (set_urlvars env groups) st segment
         = Ok (dict_set (url_context st) (strip_braces segment) (VStr raw),
               Some (strip_braces segment)).
Proof.
  intros template text groups env st segment Hplain Hmatch Hin Hph.
  destruct (@captured_values_fill_template template text groups Hplain Hmatch)
    as [tail [_ [_ [Hnames Hwords]]]].
  assert (Hseg : plain_segment segment = true)
    by (rewrite forallb_forall in Hplain; now apply Hplain).
  pose proof (plain_placeholder segment Hseg Hph) as Hname.
  pose proof (placeholder_names_in template segment Hin Hname) as Hn.
  rewrite <- Hnames in Hn.
  destruct (dict_get_in groups _ Hn) as [raw [Hget Hraw]].
  exists raw. split; [exact Hget | split].
  - intros _. rewrite Forall_forall in Hwords. now apply Hwords.
  - unfold bind_segment. rewrite Hph. cbn [set_urlvars urlvars].
    now rewrite Hget.
Qed.

Lemma placeholders_bound_after_match_witness :
  exists raw,
    dict_get [("publisher_id", "42")] (strip_braces "{publisher_id}") = Some raw
    /\ (ascii_text "/publisher/42" = true -> word raw = true)
    /\ bind_segment
         (set_urlvars (request_for "/publisher/42")
                      [("publisher_id", "42")])
         (initial main_sitemap) "{publisher_id}"
       = Ok (dict_set [] (strip_braces "{publisher_id}") (VStr raw),
             Some (strip_braces "{publisher_id}")).
Proof.
  apply (@placeholders_bound_after_match
           [""; "publisher"; "{publisher_id}"] "/publisher/42"
           [("publisher_id", "42")] (request_for "/publisher/42")
           (initial main_sitemap) "{publisher_id}").
  - reflexivity.
  - reflexivity.
  - simpl. auto.
  - reflexivity.
Defined.

(** ** A placeholder route served end to end *)

Lemma match_single_placeholder : forall prefix name v,
  brace_free prefix = true ->
  word name = true ->
  identifier name = true ->
  word v = true ->
  re_match (compile_route_regex [prefix; String "{" (name ++ "}")%string])
           (prefix ++ "/" ++ v)%string
  = Ok (Some [(name, v)]).
Proof.
  intros prefix name v Hprefix Hname Hid Hv.
  assert (Hplain : forallb plain_segment [prefix; String "{" (name ++ "}")%string]
                   = true).
  { cbn [forallb]. rewrite (brace_free_plain prefix Hprefix).
    unfold plain_segment. now rewrite (placeholder_name_word name Hname). }
  rewrite (@re_match_compile _ _ Hplain).
  cbn [placeholder_names].
  rewrite (brace_free_no_placeholder prefix Hprefix),
    (placeholder_name_word name Hname).
  unfold valid_names. cbn [forallb distinct mem existsb negb andb].
  rewrite Hid. cbn [andb].
  pose proof (@match_template [prefix; String "{" (name ++ "}")%string] [v]
                EmptyString 0 Hplain) as Hm.
  cbn [instantiate placeholder_names] in Hm.
  rewrite (brace_free_no_placeholder prefix Hprefix),
    (placeholder_name_word name Hname) in Hm.
  change (String.concat "/" [prefix; v]) with (prefix ++ "/" ++ v)%string in Hm.
  rewrite str_app_nil_r in Hm.
  rewrite Hm; [reflexivity | | reflexivity | now left].
  constructor; [exact Hv | constructor].
Qed.

(** X9: a callable declared first at the root under a placeholder key is
    served end to end.  For a prefix free of braces, a placeholder name that
    is an identifier and a request path made of the prefix, a slash and a
    non-empty run [v] of word characters, the handler is called with [v]
    coerced by its annotations under the placeholder's name, and what it
    returns is rendered: an [HTTPException] instance as that error, any
    other value by the handler's return annotation or, without one, as
    text. *)
Theorem placeholder_route_served :
  forall prefix name h rest v args V,
    brace_free prefix = true ->
    word name = true ->
    identifier name = true ->
    word v = true ->
    has_invalid (Branch rest) = false ->
    map_params (h_params h) [(name, VStr v)] = Ok args ->
    call h {| path_info := (prefix ++ "/" ++ v)%string; urlvars := [(name, v)] |}
         args = Ok V ->
    serve_path (Branch ((String "{" (name ++ "}")%string, Leaf h) :: rest))
               prefix (prefix ++ "/" ++ v)%string
    = rendered h V.
Proof.
  intros prefix name h rest v args V Hprefix Hname Hid Hv Hvalid Hmap Hcall.
  unfold serve_path.
  rewrite Tawdry_init_valid
    by (change (has_invalid (Branch ((String "{" (name ++ "}")%string, Leaf h)
                                       :: rest)))
          with (false || has_invalid (Branch rest)); exact Hvalid).
  rewrite generate_items_cons. cbv zeta.
  cbn [nonempty gen_yield fst snd map Tawdry_call path_info app].
  rewrite (@match_single_placeholder prefix name v Hprefix Hname Hid Hv).
  unfold make_route_response, get_route_response.
  cbn [walk]. unfold step, bind_segment.
  rewrite is_placeholder_placeholder, strip_braces_placeholder.
  cbn [set_urlvars urlvars dict_get initial url_context sitemap_context
       keyword dict_set bind fst snd getitem].
  rewrite !String.eqb_refl.
  cbn [bind select_callable nonempty truth invoke get_parameter_mappings].
  unfold invoke. cbn [get_parameter_mappings bind].
  unfold set_urlvars. cbn [fst snd path_info].
  rewrite Hmap. cbn [bind]. rewrite Hcall.
  cbn [bind fst snd final_response response].
  unfold rendered. now destruct V.
Qed.

Lemma placeholder_route_served_witness :
  serve_path (Branch [("{item_id}", Leaf show_item)]) "" "/abc"
  = rendered show_item (VDict [("item_id", VStr "abc")]).
Proof.
  apply (@placeholder_route_served "" "item_id" show_item [] "abc"
           [("item_id", VStr "abc")]); reflexivity.
Defined.

(** ** The generator of web.py, in general *)

Lemma web_generate_cons : forall k sub rest prefix,
  Web.generate_sitemap (Branch ((k, sub) :: rest)) prefix =
  match sub with
  | Branch _ =>
      Web.gen_then
        (Web.generate_sitemap sub
           (Some (Web.Lst (web_prefix prefix ++ [Web.Str k]))))
        (Web.generate_sitemap (Branch rest) prefix)
  | Leaf h =>
      ((web_prefix prefix ++ [Web.Str k], h)
         :: fst (Web.generate_sitemap (Branch rest) prefix),
       snd (Web.generate_sitemap (Branch rest) prefix))
  | Other _ => ([], Some invalid_datatype)
  end.
Proof. intros k sub rest [p |]; destruct sub; reflexivity. Qed.

Lemma web_generate_valid : forall n prefix,
  match n with
  | Branch _ =>
      has_invalid n = false ->
      snd (Web.generate_sitemap n prefix) = None
      /\ map snd (fst (Web.generate_sitemap n prefix)) = callables n
  | _ => True
  end.
Proof.
  induction n as [items IH | h | t] using node_induction; intros prefix;
    [| exact I | exact I].
  induction IH as [| [k sub] rest Hsub _ IHrest]; intros Hvalid.
  - destruct prefix; split; reflexivity.
  - change (has_invalid (Branch ((k, sub) :: rest)))
      with (has_invalid sub || has_invalid (Branch rest)) in Hvalid.
    apply orb_false_elim in Hvalid as [Hv Hrest].
    change (callables (Branch ((k, sub) :: rest)))
      with (callables sub ++ callables (Branch rest)).
    destruct (IHrest Hrest) as [Hnone Hcall].
    rewrite web_generate_cons.
    destruct sub as [sub_items | h | t].
    + pose proof (Hsub (Some (Web.Lst (web_prefix prefix ++ [Web.Str k]))))
        as Hs.
      cbn [snd] in Hs. destruct (Hs Hv) as [Hnone' Hcall'].
      unfold Web.gen_then. rewrite Hnone'. cbn [fst snd].
      split; [exact Hnone |].
      now rewrite map_app, Hcall', Hcall.
    + cbn [fst snd map callables app]. split; [exact Hnone |].
      now rewrite Hcall.
    + discriminate Hv.
Qed.

(** A nested call of the generator of web.py yields templates that begin
    with a list. *)
Lemma web_nested_heads : forall n l r,
  In r (fst (Web.generate_sitemap n (Some (Web.Lst l)))) -> list_headed r.
Proof.
  induction n as [items IH | h | t] using node_induction; intros l r H;
    [| contradiction | contradiction].
  induction IH as [| [k sub] rest Hsub _ IHrest]; [contradiction |].
  rewrite web_generate_cons in H.
  destruct sub as [sub_items | h | t].
  - unfold Web.gen_then in H.
    destruct (snd (Web.generate_sitemap (Branch sub_items)
                     (Some (Web.Lst (web_prefix (Some (Web.Lst l))
                                      ++ [Web.Str k]))))).
    + exact (Hsub _ r H).
    + cbn [fst] in H. apply in_app_or in H as [H | H];
        [exact (Hsub _ r H) | now apply IHrest].
  - cbn [fst] in H. destruct H as [<- | H]; [| now apply IHrest].
    exists l, [Web.Str k]. reflexivity.
  - contradiction.
Qed.

Lemma web_nested_in : forall items prefix k sub r,
  has_invalid (Branch items) = false ->
  In (k, Branch sub) items ->
  In r (fst (Web.generate_sitemap (Branch sub)
              (Some (Web.Lst (web_prefix prefix ++ [Web.Str k]))))) ->
  In r (fst (Web.generate_sitemap (Branch items) prefix)).
Proof.
  induction items as [| [k0 sub0] rest IH]; intros prefix k sub r Hvalid Hin Hr;
    [contradiction |].
  change (has_invalid (Branch ((k0, sub0) :: rest)))
    with (has_invalid sub0 || has_invalid (Branch rest)) in Hvalid.
  apply orb_false_elim in Hvalid as [Hv Hrest].
  rewrite web_generate_cons.
  destruct Hin as [Heq | Hin].
  - inversion Heq; subst k0 sub0.
    pose proof (web_generate_valid (Branch sub)
                  (Some (Web.Lst (web_prefix prefix ++ [Web.Str k])))) as Hs.
    cbn beta iota in Hs. destruct (Hs Hv) as [Hnone _].
    unfold Web.gen_then. rewrite Hnone. cbn [fst].
    apply in_or_app. now left.
  - specialize (IH prefix k sub r Hrest Hin Hr).
    destruct sub0 as [sub_items | h | t].
    + pose proof (web_generate_valid (Branch sub_items)
                    (Some (Web.Lst (web_prefix prefix ++ [Web.Str k0])))) as Hs.
      cbn beta iota in Hs. destruct (Hs Hv) as [Hnone _].
      unfold Web.gen_then. rewrite Hnone. cbn [fst].
      apply in_or_app. now right.
    + cbn [fst]. now right.
    + discriminate Hv.
Qed.

Lemma web_routes_of_raise : forall sitemap generated,
  Exists list_headed generated ->
  Web.routes_of sitemap generated
  = Raise (TypeError "sequence item: expected str instance, list found").
Proof.
  intros sitemap generated H.
  induction H as [[template h] generated [l [rest Hhead]]
                 | [template h] generated _ IH].
  - simpl in Hhead. subst template. reflexivity.
  - cbn [Web.routes_of]. unfold Web.compile_route_regex.
    assert (Hcases : (exists segs, Web.strings template = Ok segs)
                     \/ Web.strings template
                        = Raise (TypeError
                            "sequence item: expected str instance, list found")).
    { clear. induction template as [| [s | l] template IHt].
      - left. now exists [].
      - destruct IHt as [[segs Hs] | Hr]; simpl.
        + left. rewrite Hs. now exists (s :: segs).
        + right. now rewrite Hr.
      - right. reflexivity. }
    destruct Hcases as [[segs Hs] | Hr].
    + rewrite Hs. cbn [bind]. now rewrite IH.
    + now rewrite Hr.
Qed.

(** X11: web.py cannot serve a valid sitemap in which some mapping below the
    root holds a callable, at whatever depth: [generate_sitemap] wraps the
    prefix it receives in a list at every call, the template of every
    callable below the root starts with a list, and [serve] stops with the
    [TypeError] of ['/'.join] while it builds the route table.  The sitemap
    of the [__main__] block of web.py is of this kind. *)
Theorem web_nested_sitemap_unservable : forall items k sub,
  has_invalid (Branch items) = false ->
  In (k, Branch sub) items ->
  callables (Branch sub) <> [] ->
  Web.serve_routes (Branch items)
  = Raise (TypeError "sequence item: expected str instance, list found").
Proof.
  intros items k sub Hvalid Hin Hcallables.
  assert (Hsub : has_invalid (Branch sub) = false).
  { change (existsb (fun kv => has_invalid (snd kv)) items = false) in Hvalid.
    destruct (has_invalid (Branch sub)) eqn:E; [| reflexivity].
    assert (Ht : existsb (fun kv => has_invalid (snd kv)) items = true)
      by (apply existsb_exists; exists (k, Branch sub); now split).
    rewrite Ht in Hvalid. discriminate Hvalid. }
  pose proof (web_generate_valid (Branch sub)
                (Some (Web.Lst (web_prefix (Some (Web.Str "")) ++ [Web.Str k]))))
    as Hs.
  cbn beta iota in Hs. destruct (Hs Hsub) as [_ Hcall].
  destruct (fst (Web.generate_sitemap (Branch sub)
                   (Some (Web.Lst (web_prefix (Some (Web.Str ""))
                                    ++ [Web.Str k]))))) as [| r rs] eqn:Hgen.
  - simpl in Hcall. now contradiction Hcallables.
  - assert (Hr : In r (fst (Web.generate_sitemap (Branch sub)
                   (Some (Web.Lst (web_prefix (Some (Web.Str ""))
                                    ++ [Web.Str k]))))))
      by (rewrite Hgen; now left).
    pose proof (web_nested_heads _ _ r Hr) as Hhead.
    pose proof (@web_nested_in items (Some (Web.Str "")) k sub r Hvalid Hin Hr)
      as Hin'.
    unfold Web.serve_routes.
    rewrite web_routes_of_raise; [reflexivity |].
    apply Exists_exists. now exists r.
Qed.

Lemma web_nested_sitemap_unservable_witness :
  Web.serve_routes main_sitemap
  = Raise (TypeError "sequence item: expected str instance, list found").
Proof.
  unfold main_sitemap.
  refine (@web_nested_sitemap_unservable _ "publisher" _ _ _ _).
  - reflexivity.
  - left. reflexivity.
  - discriminate.
Defined.

Lemma web_flat_routes_of : forall sitemap items,
  flat items = true ->
  snd (Web.generate_sitemap (Branch items) (Some (Web.Str ""))) = None
  /\ exists routes,
       Web.routes_of sitemap
         (fst (Web.generate_sitemap (Branch items) (Some (Web.Str ""))))
       = Ok routes
       /\ map fst routes
          = map (fun kv => compile_route_regex [""; fst kv]) items.
Proof.
  intros sitemap items Hflat.
  induction items as [| [k sub] rest IH].
  - split; [reflexivity |]. exists []. split; reflexivity.
  - unfold flat in Hflat. cbn [forallb snd] in Hflat.
    destruct sub as [sub_items | h | t]; try discriminate Hflat.
    destruct (IH Hflat) as [Hnone [routes [Hroutes Hmap]]].
    rewrite web_generate_cons. cbn [fst snd web_prefix app].
    split; [exact Hnone |].
    cbn [Web.routes_of Web.compile_route_regex Web.strings bind].
    rewrite Hroutes. cbn [bind].
    eexists. split; [reflexivity |].
    cbn [map fst]. now rewrite Hmap.
Qed.

(** X12: for a sitemap all of whose entries are callables, [serve] of
    web.py builds one route per entry, in order; the template of an entry is
    the empty prefix followed by its key, the empty key included, and does
    not depend on the other entries. *)
Theorem web_flat_routes : forall items,
  flat items = true ->
  exists routes,
    Web.serve_routes (Branch items) = Ok routes
    /\ map fst routes
       = map (fun kv => compile_route_regex [""; fst kv]) items.
Proof.
  intros items Hflat. unfold Web.serve_routes.
  destruct (web_flat_routes_of (Branch items) items Hflat)
    as [Hnone [routes [Hroutes Hmap]]].
  cbv zeta. rewrite Hroutes, Hnone. cbn [bind].
  now exists routes.
Qed.

Lemma web_flat_routes_witness :
  exists routes,
    Web.serve_routes flat_sitemap = Ok routes
    /\ map fst routes
       = map (fun kv => compile_route_regex [""; fst kv])
             [("a", Leaf func1); ("", Leaf index_handler)].
Proof.
  apply (@web_flat_routes [("a", Leaf func1); ("", Leaf index_handler)]).
  reflexivity.
Defined.

(** ** More on routes and templates *)

Lemma leaf_route_segments_witness :
  In ("" :: route_keys ["publisher"; "{publisher_id}"; "author"; "{author_id}"; ""],
      author)
     (fst (generate_sitemap main_sitemap (Some [""]))).
Proof.
  assert (Hleaf : leaf_path main_sitemap
            ["publisher"; "{publisher_id}"; "author"; "{author_id}"; ""]
            author ([] ++ [] ++ [("", Leaf publisher)] ++ [] ++ [])).
  { apply (@leaf_below [] "publisher" _ [] _ _ _).
    apply (@leaf_below [] "{publisher_id}" _ [] _ _ _).
    apply (@leaf_below [("", Leaf publisher)] "author" _ [] _ _ _).
    apply (@leaf_below [] "{author_id}" _ [] _ _ _).
    apply (@leaf_here [] "" author _). }
  apply (leaf_route_segments "" Hleaf); reflexivity.
Defined.

Lemma node_at_app : forall path n rest,
  node_at n (path ++ rest)
  = match node_at n path with
    | Some m => node_at m rest
    | None => None
    end.
Proof.
  induction path as [| k path IH]; intros n rest; [reflexivity |].
  simpl. destruct n as [items | h | t]; try reflexivity.
  destruct (dict_get items k) as [child |]; [apply IH | reflexivity].
Qed.

(** X14: a template that goes on after the key path of a callable, at any
    depth of the sitemap, can never be answered with a value: whatever the
    request and the handlers, the walk would have to index the callable. *)
Theorem template_past_callable_fails :
  forall sitemap prefix path h segments env v,
    node_at sitemap path = Some (Leaf h) ->
    segments <> [] ->
    get_route_response sitemap (prefix :: path ++ segments) env <> Ok v.
Proof.
  intros sitemap prefix path h segments env v Hnode Hne H.
  unfold get_route_response in H. apply bind_ok in H as [st [Hwalk _]].
  apply walk_descends in Hwalk. cbn [initial sitemap_context] in Hwalk.
  rewrite node_at_app, Hnode in Hwalk.
  destruct segments; [now apply Hne | discriminate Hwalk].
Qed.

Lemma template_past_callable_fails_witness :
  In (["" ; "{x}"; "b"], right_handler)
     (fst (generate_sitemap pair_sitemap (Some [""])))
  /\ get_route_response pair_sitemap ("" :: ["{x}"] ++ ["b"])
       {| path_info := "/1/b"; urlvars := [("x", "1")] |}
     <> Ok (VStr "right")
  /\ get_route_response main_sitemap
       ("" :: ["publisher"; "{publisher_id}"; ""] ++ ["author"])
       {| path_info := "/publisher/42//author";
          urlvars := [("publisher_id", "42")] |}
     <> Ok (VStr "deep").
Proof.
  split; [simpl; auto |]. split.
  - apply (@template_past_callable_fails pair_sitemap "" ["{x}"] left_handler
             ["b"]).
    + reflexivity.
    + discriminate.
  - apply (@template_past_callable_fails main_sitemap ""
             ["publisher"; "{publisher_id}"; ""] publisher ["author"]).
    + reflexivity.
    + discriminate.
Defined.

Lemma search_spec : forall s before name after,
  search s = Some (before, name, after) ->
  s = (before ++ String "{" (name ++ String "}" after))%string
  /\ word name = true.
Proof.
  induction s as [| c s IH]; intros before name after H; simpl in H.
  - discriminate H.
  - destruct (if Ascii.eqb c "{" then match_braces s else None)
      as [[n a] |] eqn:Hm.
    + inversion H; subst.
      destruct (Ascii.eqb c "{") eqn:Hc; [| discriminate Hm].
      apply Ascii.eqb_eq in Hc; subst c.
      destruct (@match_braces_spec s name after Hm) as [-> Hw]. auto.
    + destruct (search s) as [[[b n] a] |] eqn:Hs; [| discriminate H].
      inversion H; subst.
      destruct (IH b name after eq_refl) as [-> Hw]. auto.
Qed.

Lemma finditer_partition : forall fuel s,
  template_of (finditer_from fuel s) = s
  /\ Forall (fun n => word n = true) (group_names (finditer_from fuel s)).
Proof.
  induction fuel as [| fuel IH]; intros s; simpl.
  - split; [apply str_app_nil_r | constructor].
  - destruct (search s) as [[[b n] a] |] eqn:Hs.
    + destruct (@search_spec s b n a Hs) as [-> Hw].
      destruct (IH a) as [Ha Hnames]. simpl. rewrite Ha.
      split; [reflexivity | now constructor].
    + split; [apply str_app_nil_r | constructor].
Qed.

Lemma template_of_app_dollar : forall parts,
  template_of (parts ++ [Dollar]) = template_of parts.
Proof.
  induction parts as [| part parts IH]; [reflexivity |].
  destruct part; simpl; now rewrite ?IH.
Qed.

(** X15: [compile_route_regex] loses nothing of the template: for every list
    of segments, the escaped sections and the named groups of the pattern,
    read in order with each group written back as [{name}], are the joined
    template.  When the segments are made of ASCII characters, the name of
    every group is a non-empty run of the word characters of ASCII. *)
Theorem pattern_partitions_template : forall template,
  template_of (compile_route_regex template) = String.concat "/" template
  /\ (forallb ascii_text template = true ->
      Forall (fun n => word n = true)
             (group_names (compile_route_regex template))).
Proof.
  intros template. unfold compile_route_regex.
  destruct (finditer_partition
              (String.length (String.concat "/" template))
              (String.concat "/" template)) as [Ht Hn].
  cbn [template_of group_names].
  rewrite template_of_app_dollar, group_names_app_dollar. now split.
Qed.

Lemma pattern_partitions_template_witness :
  template_of (compile_route_regex [""; "publisher"; "{publisher_id}"; "x{y}z"])
  = String.concat "/" [""; "publisher"; "{publisher_id}"; "x{y}z"]
  /\ Forall (fun n => word n = true)
            (group_names
               (compile_route_regex
                  [""; "publisher"; "{publisher_id}"; "x{y}z"])).
Proof.
  split.
  - apply (proj1 (pattern_partitions_template
                    [""; "publisher"; "{publisher_id}"; "x{y}z"])).
  - apply (proj2 (pattern_partitions_template
                    [""; "publisher"; "{publisher_id}"; "x{y}z"])).
    reflexivity.
Defined.

(** ** The context of the walk *)

Lemma keys_dict_set : forall (V : Type) (d : dict V) k v x,
  In x (keys (dict_set d k v)) <-> In x (keys d) \/ x = k.
Proof.
  unfold keys.
  induction d as [| [k' v'] d IH]; intros k v x; simpl.
  - split; [intros [H | []]; auto | intros [[] | H]; auto].
  - destruct (String.eqb k' k) eqn:E; simpl.
    + apply String.eqb_eq in E; subst k'.
      split; [intros [H | H]; auto | intros [[H | H] | H]; auto].
    + specialize (IH k v x).
      split; [intros [H | H]; [auto | apply IH in H; tauto]
             | intros [[H | H] | H]; [auto | right; apply IH; auto
                                     | right; apply IH; auto]].
Qed.

Lemma bind_segment_keys : forall req st segment ctx kw x,
  bind_segment req st segment = Ok (ctx, kw) ->
  (In x (keys ctx) <->
   In x (keys (url_context st))
   \/ (is_placeholder segment = true /\ x = strip_braces segment))
  /\ (kw = keyword st
      \/ (is_placeholder segment = true /\ kw = Some (strip_braces segment))).
Proof.
  intros req st segment ctx kw x H. unfold bind_segment in H.
  destruct (is_placeholder segment) eqn:Hp.
  - destruct (dict_get (urlvars req) (strip_braces segment)); [| discriminate H].
    inversion H; subst. split; [| right; auto].
    rewrite keys_dict_set. split; [intros [Hx | Hx]; auto | intros [Hx | [_ Hx]]; auto].
  - inversion H; subst. split; [| now left].
    split; [auto | intros [Hx | [Hx _]]; [exact Hx | discriminate Hx]].
Qed.

(** One iteration: the names of the context are those it had, and the name
    of the segment if it is a placeholder; the name bound last is one of
    them. *)
Lemma step_keys : forall req st segment st',
  step req st segment = Ok st' ->
  (forall k, keyword st = Some k -> In k (keys (url_context st))) ->
  (forall x, In x (keys (url_context st')) <->
             In x (keys (url_context st))
             \/ (is_placeholder segment = true /\ x = strip_braces segment))
  /\ (forall k, keyword st' = Some k -> In k (keys (url_context st'))).
Proof.
  intros req st segment st' Hstep Hkw.
  assert (Hbound : forall ctx kw,
            bind_segment req st segment = Ok (ctx, kw) ->
            forall k, kw = Some k -> In k (keys ctx)).
  { intros ctx kw Hb k Hk.
    destruct (bind_segment_keys req st segment k Hb) as [Hiff [Hsame | [Hp Hnew]]].
    - apply Hiff. left. apply Hkw. congruence.
    - apply Hiff. right. split; [exact Hp | congruence]. }
  destruct (callable_at (sitemap_context st) segment) as [c |] eqn:Hc.
  - destruct (step_invoked req st segment Hc Hstep)
      as [ctx [kw [h [args [V [Hb [_ [Hm [_ [Hctx [Hk _]]]]]]]]]]].
    pose proof (map_params_keys _ _ Hm) as Hkeys.
    assert (Hin : In kw (keys ctx)) by (now apply (Hbound ctx (Some kw) Hb)).
    split.
    + intros x. rewrite Hctx, keys_dict_set, Hkeys.
      destruct (bind_segment_keys req st segment x Hb) as [Hiff _].
      rewrite <- Hiff. split; [intros [Hx | ->]; assumption | auto].
    + intros k Hk'. rewrite Hk in Hk'. inversion Hk'; subst k.
      rewrite Hctx, keys_dict_set. now right.
  - destruct (step_quiet req st segment Hc Hstep) as [ctx [kw [Hb [Hctx [Hk _]]]]].
    split.
    + intros x. rewrite Hctx.
      now destruct (bind_segment_keys req st segment x Hb) as [Hiff _].
    + intros k Hk'. rewrite Hctx. apply (Hbound ctx kw Hb). congruence.
Qed.

Lemma walk_keys : forall req segments st st',
  walk req st segments = Ok st' ->
  (forall k, keyword st = Some k -> In k (keys (url_context st))) ->
  forall x, In x (keys (url_context st')) <->
            In x (keys (url_context st)) \/ In x (bound_names segments).
Proof.
  induction segments as [| s segments IH]; intros st st' H Hkw x; simpl in H.
  - inversion H; subst. unfold bound_names. simpl.
    split; [now left | intros [Hx | []]; exact Hx].
  - apply bind_ok in H as [st1 [Hstep H]].
    destruct (step_keys req st s Hstep Hkw) as [Hiff Hkw1].
    rewrite (IH st1 st' H Hkw1 x), Hiff.
    unfold bound_names. simpl. destruct (is_placeholder s); simpl.
    + split; [intros [[Hx | [_ Hx]] | Hx]; auto | intros [Hx | [Hx | Hx]]; auto].
    + split; [intros [[Hx | [Hx _]] | Hx]; auto; discriminate
             | intros [Hx | Hx]; auto].
Qed.

(** X16: the names of the context that the walk holds, and hands to the
    handlers, are exactly the names of the placeholder segments walked so
    far: coercion and the store of a return value change values only, and an
    entry of [urlvars] that no segment of the template names never reaches
    a handler. *)
Theorem context_names_are_placeholders : forall sitemap env segments st x,
  walk env (initial sitemap) segments = Ok st ->
  (In x (keys (url_context st)) <-> In x (bound_names segments)).
Proof.
  intros sitemap env segments st x H.
  rewrite (@walk_keys env segments (initial sitemap) st H).
  - cbn [initial url_context keys map].
    split; [intros [[] | Hx]; exact Hx | now right].
  - intros k Hk. discriminate Hk.
Qed.

Lemma context_names_are_placeholders_witness :
  In "publisher_id"
     (keys [("publisher_id", VDict [("name", VStr "Mad Hat")])])
  <-> In "publisher_id" (bound_names ["publisher"; "{publisher_id}"]).
Proof.
  apply (@context_names_are_placeholders main_sitemap
           {| path_info := "/publisher/42";
              urlvars := [("publisher_id", "42"); ("other", "x")] |}
           ["publisher"; "{publisher_id}"]
           {| url_context := [("publisher_id", VDict [("name", VStr "Mad Hat")])];
              sitemap_context := Branch
                [("", Leaf publisher);
                 ("author", Branch [("{author_id}", Branch
                    [("", Leaf author);
                     ("book", Branch [("{book_id}", Leaf book)])])])];
              keyword := Some "publisher_id";
              response := Some (VDict [("name", VStr "Mad Hat")]) |}
           "publisher_id").
  reflexivity.
Defined.

(** X17: a context all of whose names the handler declares without an
    annotation comes out of the coercer as it went in, entry for entry and
    in the same order: a handler without annotations receives the captured
    text and the chained values untouched. *)
Theorem map_params_unannotated : forall mappings context,
  (forall name, In name (keys context) ->
                dict_get mappings name = Some Signature_empty) ->
  map_params mappings context = Ok context.
Proof.
  induction context as [| [name v] context IH]; intros H; [reflexivity |].
  simpl. rewrite (H name) by (now left).
  rewrite IH; [reflexivity |].
  intros n Hn. apply H. now right.
Qed.

Lemma map_params_unannotated_witness :
  map_params (h_params author)
    [("publisher_id", VDict [("name", VStr "Mad Hat")]); ("author_id", VStr "7")]
  = Ok [("publisher_id", VDict [("name", VStr "Mad Hat")]);
        ("author_id", VStr "7")].
Proof.
  apply map_params_unannotated.
  intros name [<- | [<- | []]]; reflexivity.
Defined.
